(** * Spotter: a shallow embedding of the load generator and its properties

    [Spotter.go] holds two generations of the program.  The first one
    (lines 1-319: [checkURL], a [bench] loop that classifies inline) is
    embedded in [Module Legacy]; the second one (lines 320-687: redirect
    policy, TLS configuration, [crunchRequest]) in [Module Spotter].  Of the
    first generation only what differs from the second and bears on the
    properties below is embedded.  Logging, the usage text and the
    interrupt handler are left out of both.

    Go values are embedded as follows.
    - [int], [int64]: [Z], with two's-complement wrap-around [wrap64]
      applied where the program does arithmetic.
    - [string]: [string], a sequence of bytes as in Go.
    - [error]: the text of [err.Error()].
    - goroutines: an interleaving step function on a pool state, one
      component per goroutine; the buffered channel is the list of values
      it holds, oldest first.
    - the standard library, the runtime and the outside world (URL parser,
      request constructor, channel allocation, file system) are fields of
      the record [Platform]; what lies behind [Client.Do] (the transport
      of [net/http], the network and the remote server) is an argument
      named [net], about which nothing is assumed unless a statement says
      so. *)

From Stdlib Require Import ZArith Lia Ascii String DecimalString.
From stdpp Require Import base list strings gmap.

Local Open Scope string_scope.
Local Open Scope Z_scope.

(** ** Go primitives *)

Module Go.

(** [int64] (and [int] on the 64-bit targets the tool is built for). *)
Definition max_int64 : Z := 2 ^ 63 - 1.
Definition min_int64 : Z := - 2 ^ 63.

Definition wrap64 (z : Z) : Z := (z + 2 ^ 63) mod 2 ^ 64 - 2 ^ 63.

Definition is_int64 (z : Z) : Prop := min_int64 <= z <= max_int64.

(** [fmt.Sprintf("%d", z)]. *)
Definition itoa (z : Z) : string := NilZero.string_of_int (Z.to_int z).

(** [strings.HasPrefix(s, p)]. *)
Definition HasPrefix (s p : string) : bool := String.prefix p s.

(** [strings.Contains(s, sub)]. *)
Fixpoint Contains (s sub : string) : bool :=
  String.prefix sub s ||
  match s with
  | EmptyString => false
  | String _ rest => Contains rest sub
  end.

(** [strings.Split(s, sep)] for a one-byte separator: the fields between
    the occurrences of [sep], so one more field than there are
    occurrences. *)
Fixpoint Split (s : string) (sep : ascii) : list string :=
  match s with
  | EmptyString => [EmptyString]
  | String c rest =>
      if Ascii.eqb c sep then EmptyString :: Split rest sep
      else match Split rest sep with
           | field :: fields => String c field :: fields
           | [] => [String c EmptyString]
           end
  end.

(** [strings.Count(s, sep)] for a one-byte separator. *)
Fixpoint Count (s : string) (sep : ascii) : nat :=
  match s with
  | EmptyString => O
  | String c rest => (if Ascii.eqb c sep then 1 else 0)%nat + Count rest sep
  end.

(** [strings.Cut(s, sep)] for a one-byte separator: the text before the
    first [sep], the text after it, and whether [sep] occurs. *)
Fixpoint Cut (s : string) (sep : ascii) : string * string * bool :=
  match s with
  | EmptyString => (EmptyString, EmptyString, false)
  | String c rest =>
      if Ascii.eqb c sep then (EmptyString, rest, true)
      else let '(before, after, found) := Cut rest sep in
           (String c before, after, found)
  end.

(** The slice [s[n:]]. *)
Fixpoint slice_from (n : nat) (s : string) : string :=
  match n, s with
  | O, _ => s
  | S n', String _ rest => slice_from n' rest
  | S _, EmptyString => EmptyString
  end.

(** [strings.ToLower] on ASCII letters. *)
Definition lower_byte (c : ascii) : ascii :=
  let n := nat_of_ascii c in
  if (65 <=? n)%nat && (n <=? 90)%nat then ascii_of_nat (n + 32) else c.

Fixpoint ToLower (s : string) : string :=
  match s with
  | EmptyString => EmptyString
  | String c rest => String (lower_byte c) (ToLower rest)
  end.

(** What a byte stream reads from: a string in memory ([*strings.Reader])
    or the file of that name ([*os.File]). *)
Inductive Source :=
| Memory
| File (name : string).

(** A single-pass byte stream: where it reads from, the bytes behind it,
    the read offset, and whether it has been closed.  A [strings.Reader]
    has no [Close]; a closed file fails every read. *)
Record Reader := mkReader {
  rd_source : Source;
  rd_bytes : string;
  rd_off : nat;
  rd_closed : bool }.

(** [strings.NewReader(s)]. *)
Definition NewReader (s : string) : Reader := mkReader Memory s 0 false.

(** The [*os.File] that [os.Open(name)] returns for a file holding
    [bytes]. *)
Definition Opened (name bytes : string) : Reader :=
  mkReader (File name) bytes 0 false.

(** Reading a stream to its end: the bytes from the offset on, and the
    stream left at end of file. *)
Definition drain_reader (r : Reader) : string * Reader :=
  (slice_from (rd_off r) (rd_bytes r),
   mkReader (rd_source r) (rd_bytes r) (String.length (rd_bytes r))
            (rd_closed r)).

(** The fields of [url.URL] the program can observe. *)
Record URL := mkURL {
  Scheme : string;
  Opaque : string;
  Host : string;
  Path : string;
  RawQuery : string;
  Fragment : string }.

Definition with_Scheme (u : URL) (scheme : string) : URL :=
  mkURL scheme (Opaque u) (Host u) (Path u) (RawQuery u) (Fragment u).

(** *** A structural model of [net/url]

    [Parse] below follows the splitting done by [url.Parse]: fragment,
    scheme, query, authority, path, with its two structural errors.
    Percent-decoding, user information and the validation of host bytes
    are left out, so it agrees with the library on URLs that have no
    [%], no [@] and no control byte. *)
Module net_url.

Inductive scheme_scan :=
| NoScheme
| MissingScheme
| FoundScheme (scheme rest : string).

Definition is_letter (c : ascii) : bool :=
  let n := nat_of_ascii c in
  ((97 <=? n) && (n <=? 122) || (65 <=? n) && (n <=? 90))%nat.

Definition is_scheme_extra (c : ascii) : bool :=
  let n := nat_of_ascii c in
  ((48 <=? n) && (n <=? 57) || (n =? 43) || (n =? 45) || (n =? 46))%nat.

Definition extend_scheme (c : ascii) (r : scheme_scan) : scheme_scan :=
  match r with
  | FoundScheme scheme rest => FoundScheme (String c scheme) rest
  | other => other
  end.

(** [getScheme]: [first] tells whether the byte looked at is byte 0. *)
Fixpoint getScheme (first : bool) (rawURL : string) : scheme_scan :=
  match rawURL with
  | EmptyString => NoScheme
  | String c rest =>
      if is_letter c then extend_scheme c (getScheme false rest)
      else if is_scheme_extra c then
        if first then NoScheme else extend_scheme c (getScheme false rest)
      else if Ascii.eqb c ":" then
        if first then MissingScheme else FoundScheme EmptyString rest
      else NoScheme
  end.

Definition parse_rest (scheme rest : string) : string + URL :=
  let '(rest, query, _) := Cut rest "?" in
  if negb (HasPrefix rest "/") && negb (String.eqb scheme "") then
    inr (mkURL scheme rest "" "" query "")
  else if negb (HasPrefix rest "/") && Contains (Cut rest "/").1.1 ":" then
    inl "first path segment in URL cannot contain colon"
  else if (negb (String.eqb scheme "") || negb (HasPrefix rest "///"))
          && HasPrefix rest "//" then
    let '(authority, path, found) := Cut (slice_from 2 rest) "/" in
    inr (mkURL scheme "" authority (if found then String "/" path else "")
               query "")
  else inr (mkURL scheme "" "" rest query "").

Definition Parse (rawURL : string) : string + URL :=
  let '(u, frag, _) := Cut rawURL "#" in
  match
    (if String.eqb u "*" then inr (mkURL "" "" "" "*" "" "")
     else match getScheme true u with
          | MissingScheme => inl "missing protocol scheme"
          | NoScheme => parse_rest "" u
          | FoundScheme scheme rest => parse_rest (ToLower scheme) rest
          end)
  with
  | inl err => inl ("parse " +:+ u +:+ ": " +:+ err)
  | inr url =>
      inr (mkURL (Scheme url) (Opaque url) (Host url) (Path url)
                 (RawQuery url) frag)
  end.

(** [URL.String]: the reassembly of the parts, without escaping. *)
Definition URL_String (u : URL) : string :=
  (if String.eqb (Scheme u) "" then "" else Scheme u +:+ ":")
  +:+ (if String.eqb (Opaque u) "" then
         (if negb (String.eqb (Host u) "") then "//" +:+ Host u
          else if negb (String.eqb (Scheme u) "")
                  && negb (String.eqb (Path u) "") then "//" else "")
         +:+ Path u
       else Opaque u)
  +:+ (if String.eqb (RawQuery u) "" then "" else "?" +:+ RawQuery u)
  +:+ (if String.eqb (Fragment u) "" then "" else "#" +:+ Fragment u).

End net_url.

End Go.

(** ** The part of [net/http] the program drives *)

Module Http.
Import Go.

(** [http.Request].  [req_Body] is the stream handed to [http.NewRequest],
    which stores it without copying it: a file as it is, a
    [strings.Reader] behind [io.NopCloser]. *)
Record Request := mkRequest {
  req_Method : string;
  req_URL : string;
  req_Header : list (string * string);
  req_Body : Reader }.

(** [Header.Add] appends; the embedding records each call with its
    arguments, in order.  (The library files the value under the canonical
    capitalisation of the key.) *)
Definition Header_Add (key value : string) (r : Request) : Request :=
  mkRequest (req_Method r) (req_URL r) (req_Header r ++ [(key, value)])
            (req_Body r).

Definition with_URL (r : Request) (target : string) : Request :=
  mkRequest (req_Method r) target (req_Header r) (req_Body r).

Definition with_Body (r : Request) (body : Reader) : Request :=
  mkRequest (req_Method r) (req_URL r) (req_Header r) body.

(** [Request.Body.Close()]: it closes a file, and does nothing to a
    [strings.Reader]. *)
Definition Close (r : Reader) : Reader :=
  match rd_source r with
  | File _ => mkReader (rd_source r) (rd_bytes r) (rd_off r) true
  | Memory => r
  end.

(** Where a dispatch leaves the body stream of the request it was handed:
    the read offset, and whether the stream is closed. *)
Record Cursor := mkCursor { cur_off : nat; cur_closed : bool }.

Definition cursor (r : Reader) : Cursor := mkCursor (rd_off r) (rd_closed r).

Definition seek (r : Reader) (c : Cursor) : Reader :=
  mkReader (rd_source r) (rd_bytes r) (cur_off c) (cur_closed c).

(** A response body: what [ioutil.ReadAll] returns for it, the bytes read
    and the error that ended the read, if any. *)
Record BodyStream := mkBody { body_bytes : string; body_err : option string }.

Definition ReadAll (b : BodyStream) : string * option string :=
  (body_bytes b, body_err b).

Record Response := mkResponse {
  StatusCode : Z;
  Location : string;
  resp_Body : BodyStream }.

(** What a [CheckRedirect] function returns besides [nil]. *)
Inductive RedirectError :=
| ErrUseLastResponse
| Errorf (msg : string).

Record tls_Config := mkTLS { InsecureSkipVerify : bool }.

(** Durations are in nanoseconds, as [time.Duration]. *)
Definition Second : Z := 1000000000.

Record Transport := mkTransport {
  ProxyFromEnvironment : bool;
  DialTimeout : Z;
  DialKeepAlive : Z;
  ResponseHeaderTimeout : Z;
  TLSClientConfig : option tls_Config;
  TLSHandshakeTimeout : Z;
  MaxIdleConnsPerHost : Z }.

Record Client := mkClient {
  client_Transport : Transport;
  client_CheckRedirect :
    option (Request -> list Request -> option RedirectError) }.

(** [defaultCheckRedirect], used when [CheckRedirect] is [nil]. *)
Definition defaultCheckRedirect (req : Request) (via : list Request)
  : option RedirectError :=
  if 10 <=? Z.of_nat (length via) then Some (Errorf "stopped after 10 redirects")
  else None.

Definition checkRedirect (c : Client) (req : Request) (via : list Request)
  : option RedirectError :=
  match client_CheckRedirect c with
  | Some fn => fn req via
  | None => defaultCheckRedirect req via
  end.

(** What comes back for one dispatch: [hops] are the redirect responses
    met on the way, in order, each answering the request that precedes it;
    [final] answers the request that is met by no redirect, with a
    transport failure (the request could not be sent, or no response
    came) or with a response. *)
Record Exchange := mkExchange {
  hops : list Response;
  final : string + Response }.

(** What lies behind [Client.Do] for one call: the transport of
    [net/http], the network and the remote server.  Given the request as
    the call finds it, body stream included, it tells where the call
    leaves that stream and what comes back.  Whether the stream is read at
    all (the transport gives up before that on a URL without scheme or on
    a failed dial), read to its end, read again from the copy that
    [http.NewRequest] keeps of a [strings.Reader], or closed, is the
    library's business and is not fixed here. *)
Definition Dispatch : Type := Request -> Cursor * Exchange.

(** The dispatch that leaves the body stream where [net] leaves it and
    brings back [x]. *)
Definition answering (net : Dispatch) (x : Exchange) : Dispatch :=
  fun req => ((net req).1, x).

(** The redirect loop of [Client.Do].  [via] holds the requests already
    answered, oldest first.  A redirect response makes the client build the
    next request and ask the policy, with the answered request added to
    [via]; [ErrUseLastResponse] returns the redirect response itself, any
    other error fails the call, [nil] sends the next request.  An error is
    the text of the failure itself, without the method and URL that
    [url.Error] puts in front of it. *)
Fixpoint follow (c : Client) (req : Request) (via : list Request)
  (redirects : list Response) (last : string + Response) : string + Response :=
  match redirects with
  | [] => last
  | r :: redirects' =>
      let next := with_URL req (Location r) in
      match checkRedirect c next (via ++ [req]) with
      | Some ErrUseLastResponse => inr r
      | Some (Errorf msg) => inl msg
      | None => follow c next (via ++ [req]) redirects' last
      end
  end.

(** [Client.Do]: the redirect policy applied to what comes back.  The
    request is the caller's object; it is returned with its body stream
    where the call left it. *)
Definition Do (c : Client) (req : Request) (net : Dispatch)
  : (string + Response) * Request :=
  let '(cur, x) := net req in
  (follow c req [] (hops x) (final x), with_Body req (seek (req_Body req) cur)).

End Http.

(** ** The platform: library and operating-system calls made at startup *)

Record Platform := mkPlatform {
  (** [url.Parse]: the error or the URL. *)
  url_Parse : string -> string + Go.URL;
  (** [URL.String]. *)
  url_String : Go.URL -> string;
  (** The error of [http.NewRequest] for a method and a URL, if any. *)
  NewRequest_error : string -> string -> option string;
  (** [os.Open]: the error, or the bytes of the file. *)
  os_Open : string -> string + string;
  (** The bytes the runtime can give the buffer of a channel: [maxAlloc]
      less the channel header in [makechan], or less where the machine
      cannot supply that much. *)
  chan_room : Z }.

(** Whether [make(chan *Output, size)] returns a channel.  The runtime
    panics when [size] is negative, when the size of the buffer in bytes
    (8 for each pointer) overflows a [uintptr], or when it is beyond the
    room.  (An allocation that the machine cannot supply ends the process
    as well; the embedding does not tell the two ends apart.) *)
Definition makechan (P : Platform) (size : Z) : bool :=
  (0 <=? size) && (8 * size <? 2 ^ 64) && (8 * size <=? chan_room P).

(** The process ends early through one of these. *)
Inductive Exit :=
| os_Exit (code : Z)
| log_Fatalf (msg : string)
| panic (msg : string).

Definition newline : string := String (ascii_of_nat 10) EmptyString.

(** ** The current program (lines 320-687) *)

Module Spotter.
Import Go Http.

(** The package-level variables set by [flag.Parse]. *)
Record Flags := mkFlags {
  requests : Z;
  clients : Z;
  requestMethod : string;
  requestBody : string;
  outputFile : string;
  requestHeaders : list string;
  displayVersion : bool;
  requestTimeout : Z;
  redirects : Z;
  devLogger : bool;
  obnoxiousHeader : bool }.

Definition DefaultRequestTimeout : Z := 30 * Second.
Definition DefaultRedirects : Z := 10.

(** The values [init] registers as defaults. *)
Definition default_flags : Flags :=
  mkFlags 1 1 "GET" "" "" [] false DefaultRequestTimeout DefaultRedirects
          false false.

Record Output := mkOutput { category : string; respBody : string }.

Record ResultFile := mkResultFile {
  Net : list string;
  Bad : list string;
  Succ : list string }.

(** A buffered channel of [*Output]: its capacity and what it holds, oldest
    first. *)
Record Chan := mkChan { chan_cap : Z; chan_buf : list Output }.

(** [Configuration] holds pointers; the embedding holds what they point
    to, so that a change made through one goroutine's [conf] is the change
    every other goroutine sees. *)
Record Configuration := mkConfiguration {
  request : Request;
  client : Client;
  conf_requests : Z;
  resultBuffer : Chan }.

(** Lines 445-449 of [main]. *)
Definition prefix_target (urlDirty : string) : string :=
  if negb (Contains urlDirty "://") && negb (HasPrefix urlDirty "//")
  then "//" +:+ urlDirty
  else urlDirty.

(** Lines 445-455 of [main]: the target as [createHttpRequest] gets it. *)
Definition parse_target (P : Platform) (urlDirty : string) : Exit + URL :=
  match url_Parse P (prefix_target urlDirty) with
  | inl err => inl (os_Exit 1)
  | inr urlClean => inr urlClean
  end.

Definition createHttpBody (P : Platform) (body : string) : Exit + Reader :=
  if HasPrefix body "@" then
    let fileName := slice_from 1 body in
    match os_Open P fileName with
    | inl err =>
        inl (log_Fatalf ("[SPOTTER]: Could not read from File " +:+ fileName
                         +:+ " " +:+ err))
    | inr bytes => inr (Opened fileName bytes)
    end
  else inr (NewReader body).

Definition extractHeaderKV (header : string) : Exit + string * string :=
  let splitHeader := Split header ":" in
  if negb (length splitHeader =? 2)%nat then
    inl (log_Fatalf ("[SPOTTER]: Malformed Request Header:" +:+ newline
                     +:+ header))
  else inr (default "" (splitHeader !! 0%nat), default "" (splitHeader !! 1%nat)).

(** The loop over [requestHeaders] in [createHttpRequest]. *)
Fixpoint add_headers (requestHeaders : list string) (req : Request)
  : Exit + Request :=
  match requestHeaders with
  | [] => inr req
  | value :: rest =>
      match extractHeaderKV value with
      | inl fatal => inl fatal
      | inr (key, value) => add_headers rest (Header_Add key value req)
      end
  end.

Definition createHttpRequest (P : Platform) (requestMethod requestBody : string)
  (requestHeaders : list string) (url : URL) : Exit + Request :=
  match createHttpBody P requestBody with
  | inl fatal => inl fatal
  | inr body =>
      match NewRequest_error P requestMethod (url_String P url) with
      | Some err =>
          inl (log_Fatalf ("[SPOTTER]: Couldn't create HTTP Request:"
                           +:+ newline +:+ err))
      | None =>
          add_headers requestHeaders
            (mkRequest (if String.eqb requestMethod "" then "GET"
                        else requestMethod)
                       (url_String P url) [] body)
      end
  end.

(** The function [main] stores in [httpClient.CheckRedirect]; it closes
    over the flag [redirects]. *)
Definition CheckRedirect (redirects : Z) (req : Request)
  (reqList : list Request) : option RedirectError :=
  if redirects =? -1 then Some ErrUseLastResponse
  else if Z.of_nat (length reqList) >? redirects then
    Some (Errorf ("[SPOTTER]: Followed " +:+ itoa redirects
                  +:+ " redirects. Stopping..."))
  else None.

Definition defaultTLSConfig : tls_Config := mkTLS true.

Definition transport (fl : Flags) : Transport :=
  mkTransport true (requestTimeout fl) (30 * Second) (requestTimeout fl)
              (Some defaultTLSConfig) (10 * Second) 10000.

Definition httpClient (fl : Flags) : Client :=
  mkClient (transport fl) (Some (CheckRedirect (redirects fl))).

Definition with_request (conf : Configuration) (req : Request) : Configuration :=
  mkConfiguration req (client conf) (conf_requests conf) (resultBuffer conf).

(** [crunchRequest]: one attempt.  [net] is what lies behind this call of
    [Do].  The configuration comes back with the shared request as the
    call left it. *)
Definition crunchRequest (conf : Configuration) (net : Dispatch)
  : Output * Configuration :=
  let '(result, req') := Do (client conf) (request conf) net in
  let conf' := with_request conf req' in
  match result with
  | inl err => (mkOutput "net" err, conf')
  | inr resp =>
      match ReadAll (resp_Body resp) with
      | (_, Some err) => (mkOutput "bad" err, conf')
      | (bodyBytes, None) =>
          let statusCode := StatusCode resp in
          if (200 <=? statusCode) && (statusCode <? 300)
          then (mkOutput "succ" bodyBytes, conf')
          else (mkOutput "bad" bodyBytes, conf')
      end
  end.

(** *** The worker pool

    A goroutine running [bench] is at the loop test with its loop variable
    [i], or holds the value [crunchRequest] returned and is at the channel
    send, or has left the loop (and [barrier.Done] has run). *)
Inductive Worker :=
| Looping (i : Z)
| Sending (i : Z) (o : Output)
| Done.

(** The state shared by the goroutines [main] starts.  [sent] is a history
    variable: the goroutine and the loop variable behind each value put on
    the channel, in the order of the sends. *)
Record Pool := mkPool {
  config : Configuration;
  workers : list Worker;
  sent : list (nat * Z) }.

(** What lies behind [Do] for attempt [i] of goroutine [id].  A run makes
    an attempt once, so this covers a transport and a remote side whose
    behaviour depends on what went before. *)
Definition Remote : Type := nat -> Z -> Dispatch.

Definition with_worker (p : Pool) (id : nat) (w : Worker) : Pool :=
  mkPool (config p) (<[id := w]> (workers p)) (sent p).

(** [conf.resultBuffer <- o].  Nothing receives before [barrier.Wait]
    returns, so a send goes through only into free buffer space. *)
Definition send (conf : Configuration) (o : Output) : option Configuration :=
  let ch := resultBuffer conf in
  if Z.of_nat (length (chan_buf ch)) <? chan_cap ch then
    Some (mkConfiguration (request conf) (client conf) (conf_requests conf)
                          (mkChan (chan_cap ch) (chan_buf ch ++ [o])))
  else None.

(** One step of goroutine [id] in [bench]; [None] when it cannot move (it
    has returned, or its send blocks). *)
Definition bench (net : Remote) (id : nat) (p : Pool) : option Pool :=
  match workers p !! id with
  | Some (Looping i) =>
      if i <=? conf_requests (config p) then
        let '(o, conf') := crunchRequest (config p) (net id i) in
        Some (mkPool conf' (<[id := Sending i o]> (workers p)) (sent p))
      else Some (with_worker p id Done)
  | Some (Sending i o) =>
      match send (config p) o with
      | Some conf' =>
          Some (mkPool conf' (<[id := Looping (wrap64 (i + 1))]> (workers p))
                       (sent p ++ [(id, i)]))
      | None => None
      end
  | Some Done | None => None
  end.

(** The goroutines run as a scheduler picks them; a pick of a goroutine
    that cannot move changes nothing. *)
Fixpoint run (net : Remote) (sched : list nat) (p : Pool) : Pool :=
  match sched with
  | [] => p
  | id :: sched' => run net sched' (default p (bench net id p))
  end.

Definition is_Done (w : Worker) : bool :=
  match w with Done => true | _ => false end.

(** [barrier.Wait] returns. *)
Definition all_done (p : Pool) : bool := forallb is_Done (workers p).

(** *** Aggregation *)

Record Tally := mkTally {
  total : Z;
  netFailed : Z;
  badFailed : Z;
  succ : Z;
  file : ResultFile }.

Definition tally0 : Tally := mkTally 0 0 0 0 (mkResultFile [] [] []).

(** The body of the [range bufferedChan] loop. *)
Definition count (t : Tally) (output : Output) : Tally :=
  let f := file t in
  let t' :=
    if String.eqb (category output) "net" then
      mkTally (total t) (wrap64 (netFailed t + 1)) (badFailed t) (succ t)
              (mkResultFile (Net f ++ [respBody output]) (Bad f) (Succ f))
    else if String.eqb (category output) "bad" then
      mkTally (total t) (netFailed t) (wrap64 (badFailed t + 1)) (succ t)
              (mkResultFile (Net f) (Bad f ++ [respBody output]) (Succ f))
    else if String.eqb (category output) "succ" then
      mkTally (total t) (netFailed t) (badFailed t) (wrap64 (succ t + 1))
              (mkResultFile (Net f) (Bad f) (Succ f ++ [respBody output]))
    else t in
  mkTally (wrap64 (total t' + 1)) (netFailed t') (badFailed t') (succ t')
          (file t').

Definition drain (buf : list Output) : Tally := fold_left count buf tally0.

(** *** [main] *)

(** Up to and including the [go bench] loop: the process ends early, or
    the pool is running. *)
Definition startup (P : Platform) (fl : Flags) (args : list string)
  : Exit + Pool :=
  if displayVersion fl then inl (os_Exit 0)
  else
    match args with
    | [urlDirty] =>
        match parse_target P urlDirty with
        | inl e => inl e
        | inr urlClean =>
            match createHttpRequest P (requestMethod fl) (requestBody fl)
                                    (requestHeaders fl) urlClean with
            | inl e => inl e
            | inr httpRequest =>
                let size := wrap64 (requests fl * clients fl) in
                if negb (makechan P size) then
                  inl (panic "makechan: size out of range")
                else if clients fl <? 0 then
                  inl (panic "sync: negative WaitGroup counter")
                else
                  inr (mkPool
                         (mkConfiguration httpRequest (httpClient fl)
                                          (requests fl) (mkChan size []))
                         (replicate (Z.to_nat (clients fl)) (Looping 1))
                         [])
            end
        end
    | _ => inl (os_Exit 1)
    end.

(** How far a run of the process gets: it has ended early, it is still in
    [barrier.Wait], or it has drained the channel into its report. *)
Inductive Outcome :=
| Exited (e : Exit)
| Waiting (p : Pool)
| Reported (t : Tally).

Definition main (P : Platform) (net : Remote) (fl : Flags) (args : list string)
  (sched : list nat) : Outcome :=
  match startup P fl args with
  | inl e => Exited e
  | inr p0 =>
      let p := run net sched p0 in
      if all_done p then Reported (drain (chan_buf (resultBuffer (config p))))
      else Waiting p
  end.

End Spotter.

(** ** The first generation (lines 1-319), where it differs *)

Module Legacy.
Import Go Http.

Record Output := mkOutput {
  category : string;
  timedOut : bool;
  respBody : string }.

Definition checkURL (P : Platform) (uri : string) : Exit + URL :=
  let uri :=
    if negb (Contains uri "://") && negb (HasPrefix uri "//")
    then "//" +:+ uri
    else uri in
  match url_Parse P uri with
  | inl error => inl (log_Fatalf ("Could not parse url <nil>: " +:+ error))
  | inr url =>
      inr (if String.eqb (Scheme url) "" then with_Scheme url "http" else url)
  end.

(** The package-level [transport]: no TLS configuration, no dial or header
    timeouts. *)
Definition transport : Transport :=
  mkTransport true 0 0 0 None (10 * Second) 0.

(** [CheckRedirect] is left [nil]. *)
Definition httpClient : Client := mkClient transport None.

(** One turn of the loop of [bench]: the value put on the channel and the
    shared request after the send.  [ms] is the time the call to [Do]
    took, in milliseconds. *)
Definition bench (c : Client) (req : Request) (net : Dispatch)
  (ms : Z) : Output * Request :=
  let '(result, req') := Do c req net in
  let timedOut := 120000 <=? ms in
  match result with
  | inl err => (mkOutput "net" timedOut err, req')
  | inr resp =>
      let '(bodyBytes, _) := ReadAll (resp_Body resp) in
      let statusCode := StatusCode resp in
      if statusCode =? 200 then (mkOutput "succ" timedOut bodyBytes, req')
      else (mkOutput "bad" timedOut bodyBytes, req')
  end.

End Legacy.

(** ** Vocabulary of the properties *)

Module Props.
Import Go Http Spotter.

(** The loop variables behind the values goroutine [id] has put on the
    channel, in the order it sent them. *)
Definition history (id : nat) (sent : list (nat * Z)) : list Z :=
  (filter (fun e => e.1 = id) sent).*2.

(** The number of values a goroutine in state [w] has put on the channel
    when its quota is [quota]. *)
Definition emitted (quota : Z) (w : Worker) : Z :=
  match w with
  | Looping i | Sending i _ => i - 1
  | Done => quota
  end.


Definition sumZ (l : list Z) : Z := foldr Z.add 0 l.


Definition channel (p : Pool) : list Output := chan_buf (resultBuffer (config p)).

Definition known_category (o : Output) : Prop :=
  category o = "net" \/ category o = "bad" \/ category o = "succ".

(** How many values on the channel carry the category [c]. *)
Definition tagged (c : string) (buf : list Output) : Z :=
  Z.of_nat (length (filter (fun o => category o = c) buf)).

(** The counters of a tally, without the bodies. *)
Definition counters (t : Tally) : Z * Z * Z * Z :=
  (total t, succ t, badFailed t, netFailed t).

(** A header entry with exactly one separator. *)
Definition well_formed (header : string) : Prop := Count header ":" = 1%nat.

(** What [extractHeaderKV] ends the process with. *)
Definition malformed_header (header : string) : Exit :=
  log_Fatalf ("[SPOTTER]: Malformed Request Header:" +:+ newline +:+ header).

(** The product of the two flags fits the [int64] it is computed in. *)
Definition in_range (fl : Flags) : Prop :=
  requests fl * clients fl <= max_int64.

(** An attempt has been made: its value is on the channel, or waits at a
    send. *)
Definition attempted (p : Pool) : Prop :=
  sent p <> [] \/ exists id i o, workers p !! id = Some (Sending i o).

(** What [net/http] documents of [Client.Do]: the transport closes the
    body of the request, also when the call fails.  For a body that is a
    file this closes the file. *)
Definition closes_body (net : Remote) : Prop :=
  forall id i req name,
    rd_source (req_Body req) = File name -> cur_closed (net id i req).1 = true.

(** What its history says about a goroutine in state [w]. *)
Definition worker_ok (quota : Z) (sent : list (nat * Z)) (id : nat)
  (w : Worker) : Prop :=
  match w with
  | Looping i => 1 <= i <= quota + 1 /\ history id sent = seqZ 1 (i - 1)
  | Sending i _ => 1 <= i <= quota /\ history id sent = seqZ 1 (i - 1)
  | Done => history id sent = seqZ 1 quota
  end.

(** The invariant of the pool when the flags are in range. *)
Record pool_inv (fl : Flags) (p : Pool) : Prop := mk_pool_inv {
  inv_workers : length (workers p) = Z.to_nat (clients fl);
  inv_quota : conf_requests (config p) = requests fl;
  inv_cap : chan_cap (resultBuffer (config p)) = clients fl * requests fl;
  inv_len : length (channel p) = length (sent p);
  inv_count :
    Z.of_nat (length (channel p)) = sumZ (emitted (requests fl) <$> workers p);
  inv_each :
    forall id w, workers p !! id = Some w ->
                 worker_ok (requests fl) (sent p) id w }.

(** What holds of the pool whatever the flags are. *)
Record pool_sane (fl : Flags) (p : Pool) : Prop := mk_pool_sane {
  sane_client : client (config p) = httpClient fl;
  sane_cap : chan_cap (resultBuffer (config p)) <= max_int64;
  sane_len :
    Z.of_nat (length (channel p)) <= Z.max 0 (chan_cap (resultBuffer (config p)));
  sane_buf : Forall known_category (channel p);
  sane_pending :
    forall id i o, workers p !! id = Some (Sending i o) -> known_category o }.


(** The channel has room for every attempt: its capacity is the product of
    the flags, it never holds more, and a goroutine at its send can always
    complete it. *)
Definition never_blocks (P : Platform) (net : Remote) (fl : Flags)
  (args : list string) : Prop :=
  forall p0, startup P fl args = inr p0 ->
  forall sched,
    let p := run net sched p0 in
    chan_cap (resultBuffer (config p)) = clients fl * requests fl /\
    Z.of_nat (length (channel p)) <= chan_cap (resultBuffer (config p)) /\
    forall id i o, workers p !! id = Some (Sending i o) ->
                   is_Some (bench net id p).

End Props.

(** ** Sample platform, remote sides and runs *)

Module Samples.
Import Go Http Spotter.

(** The structural URL model, a request constructor that accepts
    everything, an empty file system, and the room for a channel buffer on
    linux/amd64 ([maxAlloc] is [2^48], the channel header takes 96
    bytes). *)
Definition platform : Platform :=
  mkPlatform net_url.Parse net_url.URL_String (fun _ _ => None)
             (fun name => inl ("open " +:+ name +:+ ": no such file or directory"))
             (2 ^ 48 - 96).

(** The remote side of one dispatch: nothing listens (the dial fails with
    [err]), or a server answers the body bytes it receives. *)
Inductive Server :=
| Unreachable (err : string)
| Listening (answer : string -> Exchange).

Definition quote : string := String (ascii_of_nat 34) EmptyString.

(** The scheme of a request URL, as the transport sees it. *)
Definition scheme_of (target : string) : string :=
  match net_url.Parse target with
  | inr u => Scheme u
  | inl _ => ""
  end.

(** A transport in the manner of [net/http], for attempts that do not
    overlap and a server that keeps connections alive.  It gives up on a
    URL whose scheme is neither [http] nor [https], and on a failed dial,
    before it reads the body.  It fails on a body that is a closed file.
    Otherwise it sends a file from the stream's position to its end, and a
    string in full (from the stream where that is unread, from the copy
    [http.NewRequest] keeps of it where it is not).  In every case it
    closes the body. *)
Definition roundTrip (server : Server) : Dispatch :=
  fun req =>
    let body := req_Body req in
    let scheme := scheme_of (req_URL req) in
    if negb (String.eqb scheme "http" || String.eqb scheme "https") then
      (cursor (Close body),
       mkExchange [] (inl ("unsupported protocol scheme " +:+ quote
                           +:+ scheme +:+ quote)))
    else
      match server with
      | Unreachable err => (cursor (Close body), mkExchange [] (inl err))
      | Listening answer =>
          match rd_source body with
          | File name =>
              if rd_closed body then
                (cursor body,
                 mkExchange [] (inl ("read " +:+ name +:+ ": file already closed")))
              else
                let '(written, body') := drain_reader body in
                (cursor (Close body'), answer written)
          | Memory => (cursor (drain_reader body).2, answer (rd_bytes body))
          end
      end.

(** The remote side [server], per goroutine and attempt, behind that
    transport. *)
Definition served (server : nat -> Z -> Server) : Remote :=
  fun id i => roundTrip (server id i).

(** A server that answers every request with [status] and the body [ok]. *)
Definition always (status : Z) : Remote :=
  served (fun _ _ =>
    Listening (fun _ =>
      mkExchange [] (inr (mkResponse status "" (mkBody "ok" None))))).

(** A server that answers 200 and sends back the request body it read. *)
Definition echo : Remote :=
  served (fun _ _ =>
    Listening (fun written =>
      mkExchange [] (inr (mkResponse 200 "" (mkBody written None))))).

(** A server whose response body breaks off after three bytes. *)
Definition truncating : Remote :=
  served (fun _ _ =>
    Listening (fun _ =>
      mkExchange []
        (inr (mkResponse 200 "" (mkBody "par" (Some "unexpected EOF")))))).

Definition moved (target : string) : Response :=
  mkResponse 302 target (mkBody "" None).

(** A server that redirects [n] times before it answers 200. *)
Definition redirecting (n : nat) : Remote :=
  served (fun _ _ =>
    Listening (fun _ =>
      mkExchange (replicate n (moved "/next"))
                 (inr (mkResponse 200 "" (mkBody "ok" None))))).

Definition flags (c r : Z) : Flags :=
  mkFlags r c "GET" "" "" [] false DefaultRequestTimeout DefaultRedirects
          false false.

Definition post (c r : Z) (data : string) : Flags :=
  mkFlags r c "POST" data "" [] false DefaultRequestTimeout DefaultRedirects
          false false.


Definition with_redirects (n : Z) : Flags :=
  mkFlags 1 1 "GET" "" "" [] false DefaultRequestTimeout n false false.

(** A request with the body [data], and a configuration around it. *)
Definition request (data : string) : Request :=
  mkRequest "POST" "http://example.com/" [] (NewReader data).

Definition conf (fl : Flags) (data : string) : Configuration :=
  mkConfiguration (request data) (httpClient fl) (requests fl)
                  (mkChan (wrap64 (requests fl * clients fl)) []).

(** A server that is not there for one attempt in three, answers 404 to
    another and 204 to the third. *)
Definition flaky : Remote :=
  served (fun _ i =>
    if i mod 3 =? 0 then Unreachable "dial tcp: connection refused"
    else if i mod 3 =? 1 then
      Listening (fun _ =>
        mkExchange [] (inr (mkResponse 404 "" (mkBody "not found" None))))
    else
      Listening (fun _ =>
        mkExchange [] (inr (mkResponse 204 "" (mkBody "" None))))).

(** Every goroutine in turn, [rounds] times. *)
Definition round_robin (clients rounds : nat) : list nat :=
  concat (replicate rounds (seq 0 clients)).

End Samples.

(** ** The end of [main]: the output file (lines 557-575, 642-664) *)

Module Files.
Import Go Spotter.

(** [strings.EqualFold], on ASCII letters.  Against ["n"] and ["y"], the
    only uses the program makes of it, this is the library function on
    every byte string: no other rune folds to either letter. *)
Definition EqualFold (s t : string) : bool := String.eqb (ToLower s) (ToLower t).

(** The files the process can see; for each path the error that opening
    it for writing meets, if any; and for each path the number of bytes
    after which a write to it breaks off, with the error, if it does.
    [os.Stat] is taken to fail for a missing file only. *)
Record FileSystem := mkFS {
  files : gmap string string;
  refused : string -> option string;
  breaks : string -> option (nat * string) }.

(** [_, err := os.Stat(location)], as [err == nil]. *)
Definition Stat (fs : FileSystem) (location : string) : bool :=
  bool_decide (is_Some (files fs !! location)).

(** The first [n] bytes of [s]. *)
Fixpoint first_bytes (n : nat) (s : string) : string :=
  match n, s with
  | S n', String c rest => String c (first_bytes n' rest)
  | _, _ => EmptyString
  end.

(** [ioutil.WriteFile(location, body, 0644)]: the file is opened with
    [O_CREATE] and [O_TRUNC], then written.  When the open fails nothing
    has changed; when the write breaks off the file is left with what had
    been written. *)
Definition WriteFile (fs : FileSystem) (location body : string)
  : option string * FileSystem :=
  match refused fs location with
  | Some err => (Some err, fs)
  | None =>
      let put content :=
        mkFS (<[location := content]> (files fs)) (refused fs) (breaks fs) in
      match breaks fs location with
      | Some (n, err) =>
          if (n <? String.length body)%nat
          then (Some err, put (first_bytes n body))
          else (None, put body)
      | None => (None, put body)
      end
  end.

(** How a call of [writeOutputFile] ends: it returns an error or [nil], it
    ends the process, or it prompts for ever. *)
Inductive Written :=
| Returned (err : option string) (fs : FileSystem)
| Exits (code : Z)
| Spins.

(** The [for] loop of [writeOutputFile].  [stdin] holds the lines still to
    be read; when they are used up [scanner.Scan] fails, [scanner.Text]
    is empty, and the loop goes round again. *)
Fixpoint overwrite_prompt (stdin : list string) (location body : string)
  (fs : FileSystem) : Written :=
  match stdin with
  | [] => Spins
  | text :: stdin' =>
      if EqualFold text "n" then Exits 1
      else if EqualFold text "y" then
        let '(err, fs') := WriteFile fs location body in Returned err fs'
      else overwrite_prompt stdin' location body fs
  end.

Definition writeOutputFile (stdin : list string) (location body : string)
  (fs : FileSystem) : Written :=
  if Stat fs location then overwrite_prompt stdin location body fs
  else let '(err, fs') := WriteFile fs location body in Returned err fs'.

(** How [main] ends once the channel is drained: with the summary printed
    (and the error of the output file, if it met one, printed before it),
    or inside [writeOutputFile]. *)
Inductive Ending :=
| Summary (t : Tally) (write_error : option string) (fs : FileSystem)
| ExitsUnreported (code : Z)
| SpinsUnreported.

(** Lines 557-575 of [main].  [marshal] is [json.Marshal] on a
    [ResultFile], which has no error for it. *)
Definition report (marshal : ResultFile -> string) (fl : Flags)
  (stdin : list string) (fs : FileSystem) (t : Tally) : Ending :=
  if negb (String.eqb (outputFile fl) "") then
    let stats := marshal (file t) in
    match writeOutputFile stdin (outputFile fl) stats fs with
    | Returned err fs' => Summary t err fs'
    | Exits code => ExitsUnreported code
    | Spins => SpinsUnreported
    end
  else Summary t None fs.

End Files.

(** ** [flexItOut] (lines 577-586) *)

Module Banner.
Import Go.

(** The constant [GunShow], U+1F4AA, as its four bytes. *)
Definition GunShow : string :=
  String (ascii_of_nat 240)
    (String (ascii_of_nat 159)
       (String (ascii_of_nat 146) (String (ascii_of_nat 170) EmptyString))).

(** The loop of [flexItOut] from loop variable [i] and buffer [b]; [fuel]
    bounds the turns, and [None] means it ran out. *)
Fixpoint flexItOut_from (fuel : nat) (i hunkLevel : Z) (b : string)
  : option string :=
  if i <? hunkLevel then
    match fuel with
    | O => None
    | S fuel' =>
        flexItOut_from fuel' (wrap64 (i + 1)) hunkLevel (b +:+ GunShow +:+ " ")
    end
  else Some b.

(** [flexItOut]: the bytes written to standard output. *)
Definition flexItOut (fuel : nat) (hunkLevel : Z) : option string :=
  flexItOut_from fuel 0 hunkLevel EmptyString.

Fixpoint repeat_string (n : nat) (unit : string) : string :=
  match n with
  | O => EmptyString
  | S n' => unit +:+ repeat_string n' unit
  end.

End Banner.

(** ** Vocabulary of the further properties *)

Module More.
Import Go Http Spotter Props Files.

(** A header key or value: no separator in it. *)
Definition colon_free (s : string) : Prop := Count s ":" = 0%nat.

(** What [createHttpBody] reads the body from, when it can. *)
Definition body_source (P : Platform) (body : string) : string + string :=
  if HasPrefix body "@" then os_Open P (slice_from 1 body) else inr body.

(** An answer at the overwrite prompt that ends the loop. *)
Definition decisive (text : string) : Prop :=
  EqualFold text "n" = true \/ EqualFold text "y" = true.

(** The payloads of the values with category [c], in channel order. *)
Definition bodies (c : string) (buf : list Output) : list string :=
  respBody <$> filter (fun o => category o = c) buf.

(** What comes back for an attempt on [req0] does not depend on where the
    attempts before it have left the body stream of [req0]. *)
Definition body_blind (net : Remote) (req0 : Request) : Prop :=
  forall id i cur,
    (net id i (with_Body req0 (seek (req_Body req0) cur))).2 = (net id i req0).2.

(** The value attempt [e.2] of goroutine [e.1] gets, computed on the
    configuration [conf0]. *)
Definition outcome_of (conf0 : Configuration) (net : Remote) (e : nat * Z)
  : Output :=
  (crunchRequest conf0 (net e.1 e.2)).1.

(** The shared request is the request of [conf0] but for the cursor of
    its body stream; the channel holds, send for send, the values of the
    attempts in its history, and a goroutine at its send holds the value
    of its attempt. *)
Definition tied (conf0 : Configuration) (net : Remote) (p : Pool) : Prop :=
  client (config p) = client conf0
  /\ (exists cur,
        request (config p)
        = with_Body (request conf0) (seek (req_Body (request conf0)) cur))
  /\ channel p = outcome_of conf0 net <$> sent p
  /\ forall id i o, workers p !! id = Some (Sending i o) ->
                    o = outcome_of conf0 net (id, i).

(** The stream [createHttpBody] makes for the body [body] once it has the
    bytes to read. *)
Definition body_stream (body bytes : string) : Reader :=
  if HasPrefix body "@" then Opened (slice_from 1 body) bytes
  else NewReader bytes.

End More.

(** ** Further samples *)

Module Fixtures.
Import Go Http Spotter Files.

(** A file system holding [report.json], where [/proc/x] cannot be opened
    for writing and a write to [/full/x] breaks off after two bytes. *)
Definition disk : FileSystem :=
  mkFS {[ "report.json" := "old" ]}
       (fun location =>
          if String.eqb location "/proc/x" then Some "permission denied"
          else None)
       (fun location =>
          if String.eqb location "/full/x"
          then Some (2%nat, "no space left on device")
          else None).

(** A stand-in for [json.Marshal]: the three lists, bar-separated. *)
Definition marshal (f : ResultFile) : string :=
  String.concat "," (Net f) +:+ "|" +:+ String.concat "," (Bad f) +:+ "|"
  +:+ String.concat "," (Succ f).

Definition to_file (location : string) : Flags :=
  mkFlags 1 1 "GET" "" location [] false DefaultRequestTimeout
          DefaultRedirects false false.

(** A server that answers 200 to even attempts and 500 to odd ones, with
    the goroutine and the attempt number as body. *)
Definition tagging : Remote :=
  Samples.served (fun id i =>
    Samples.Listening (fun _ =>
      mkExchange [] (inr (mkResponse (if i mod 2 =? 0 then 200 else 500) ""
                            (mkBody (itoa (Z.of_nat id) +:+ "/" +:+ itoa i) None))))).

(** A platform with one file, [body.txt]. *)
Definition platform_with_file : Platform :=
  mkPlatform net_url.Parse net_url.URL_String
             (fun method _ => if String.eqb method "BAD METHOD"
                              then Some "net/http: invalid method" else None)
             (fun name => if String.eqb name "body.txt" then inr "from file"
                          else inl ("open " +:+ name +:+ ": no such file or directory"))
             (2 ^ 48 - 96).

End Fixtures.

(** * Properties *)

Import Go Http Spotter Props.

Local Open Scope list_scope.

(** ** The primitives on small inputs *)

Example Split_two_colons : Split "a:b:c" ":" = ["a"; "b"; "c"].
Proof. reflexivity. Qed.

Example Split_no_colon : Split "X-Foo" ":" = ["X-Foo"].
Proof. reflexivity. Qed.

Example Split_empty_value : Split "X-Foo:" ":" = ["X-Foo"; ""].
Proof. reflexivity. Qed.

Example Contains_scheme_separator :
  Contains "http://example.com" "://" = true
  /\ Contains "example.com:8080" "://" = false.
Proof. split; reflexivity. Qed.

Example wrap64_of_2_64 : wrap64 (2 ^ 62 * 4) = 0.
Proof. reflexivity. Qed.

Example wrap64_past_max : wrap64 (max_int64 + 1) = min_int64.
Proof. reflexivity. Qed.

Example Parse_schemeless :
  net_url.Parse "//example.com/path"
  = inr (mkURL "" "" "example.com" "/path" "" "").
Proof. reflexivity. Qed.

Example Parse_with_scheme :
  net_url.Parse "HTTPS://example.com:8443/a/b?x=1#top"
  = inr (mkURL "https" "" "example.com:8443" "/a/b" "x=1" "top").
Proof. reflexivity. Qed.

Example Parse_bare_host_with_port :
  net_url.Parse "localhost:8080/x"
  = inr (mkURL "localhost" "8080/x" "" "" "" "").
Proof. reflexivity. Qed.

Example CheckRedirect_tenth_and_eleventh :
  let req := Samples.request "" in
  CheckRedirect 10 req (replicate 10 req) = None
  /\ CheckRedirect 10 req (replicate 11 req)
     = Some (Errorf "[SPOTTER]: Followed 10 redirects. Stopping...")
  /\ CheckRedirect (-1) req [req] = Some ErrUseLastResponse.
Proof. repeat split. Qed.

Example drain_reader_twice :
  let '(first, r) := drain_reader (NewReader "ping") in
  let '(second, _) := drain_reader r in
  (first, second) = ("ping", "").
Proof. reflexivity. Qed.

Example makechan_sizes :
  makechan Samples.platform 0 = true
  /\ makechan Samples.platform 10 = true
  /\ makechan Samples.platform (-1) = false
  /\ makechan Samples.platform (2 ^ 45) = false
  /\ makechan Samples.platform max_int64 = false.
Proof. by split_and!. Qed.

(** ** Integers and strings *)

Lemma wrap64_id z : is_int64 z -> wrap64 z = z.
Proof.
  unfold is_int64, min_int64, max_int64, wrap64. intros Hz.
  rewrite Z.mod_small; lia.
Qed.

Lemma wrap64_range z : min_int64 <= wrap64 z <= max_int64.
Proof.
  unfold min_int64, max_int64, wrap64.
  pose proof (Z.mod_pos_bound (z + 2 ^ 63) (2 ^ 64)). lia.
Qed.

Lemma Split_length s sep : length (Split s sep) = S (Count s sep).
Proof.
  induction s as [|c s IH]; simpl; [done|].
  destruct (Ascii.eqb c sep); simpl; [by rewrite IH|].
  destruct (Split s sep) as [|field fields]; simpl in *; lia.
Qed.

Lemma Split_no_sep s sep : Count s sep = 0%nat -> Split s sep = [s].
Proof.
  induction s as [|c s IH]; simpl; [done|].
  destruct (Ascii.eqb c sep); simpl; [done|].
  intros H. by rewrite IH.
Qed.

(** With one separator, the two fields are the text around it. *)
Lemma Split_one_sep s sep :
  Count s sep = 1%nat ->
  exists key value,
    Split s sep = [key; value] /\ s = key +:+ String sep value
    /\ Count key sep = 0%nat /\ Count value sep = 0%nat.
Proof.
  induction s as [|c s IH]; simpl; [done|].
  destruct (Ascii.eqb_spec c sep) as [->|Hne]; simpl; intros H.
  - exists EmptyString, s. rewrite Split_no_sep by lia.
    repeat split; try done; lia.
  - destruct (IH H) as (key & value & -> & -> & Hk & Hv).
    exists (String c key), value. simpl.
    destruct (Ascii.eqb_spec c sep); [done|]. by rewrite Hk.
Qed.

(** ** Request headers *)

Lemma extractHeaderKV_malformed header :
  ~ well_formed header -> extractHeaderKV header = inl (malformed_header header).
Proof.
  unfold well_formed, extractHeaderKV. intros Hbad.
  rewrite Split_length.
  destruct (Nat.eqb_spec (S (Count header ":")) 2); [lia|done].
Qed.

Lemma extractHeaderKV_well_formed header :
  well_formed header ->
  exists key value,
    extractHeaderKV header = inr (key, value)
    /\ header = key +:+ ":" +:+ value.
Proof.
  unfold well_formed, extractHeaderKV. intros Hok.
  destruct (Split_one_sep _ _ Hok) as (key & value & Hsplit & Heq & _).
  exists key, value. by rewrite Hsplit.
Qed.

(** The loop stops at the first entry that is not well formed. *)
Lemma add_headers_malformed hs req :
  Exists (fun h => ~ well_formed h) hs ->
  exists ok h rest,
    hs = ok ++ h :: rest /\ Forall well_formed ok /\ ~ well_formed h
    /\ add_headers hs req = inl (malformed_header h).
Proof.
  revert req. induction hs as [|h hs IH]; intros req Hex.
  - inversion Hex.
  - destruct (decide (well_formed h)) as [Hok|Hbad].
    + destruct (extractHeaderKV_well_formed _ Hok) as (key & value & Hkv & _).
      assert (Htail : Exists (fun h => ~ well_formed h) hs)
        by (inversion Hex; [contradiction|done]).
      destruct (IH (Header_Add key value req) Htail)
        as (ok & h' & rest & -> & Hoks & Hbad & Hadd).
      exists (h :: ok), h', rest. simpl. rewrite Hkv.
      repeat split; auto.
    + exists [], h, hs. simpl.
      rewrite (extractHeaderKV_malformed _ Hbad). by repeat split.
Qed.



(** ** One attempt *)

(** [crunchRequest] touches the shared request only, and labels its value
    with one of the three categories. *)
Lemma crunchRequest_frame conf net o conf' :
  crunchRequest conf net = (o, conf') ->
  client conf' = client conf
  /\ conf_requests conf' = conf_requests conf
  /\ resultBuffer conf' = resultBuffer conf
  /\ known_category o.
Proof.
  unfold crunchRequest, Do, known_category.
  destruct (net (request conf)) as [cur x].
  destruct (follow _ _ _ _ _) as [err|resp].
  - intros [= <- <-]. simpl. by repeat split; auto.
  - unfold ReadAll. destruct (body_err _) as [err|].
    + intros [= <- <-]. simpl. by repeat split; auto.
    + simpl. destruct (_ && _); intros [= <- <-]; simpl; by repeat split; auto.
Qed.

(** ** Sums over the pool *)

Lemma sumZ_insert (l : list Z) k x y :
  l !! k = Some x -> sumZ (<[k := y]> l) = sumZ l - x + y.
Proof.
  revert k. induction l as [|a l IH]; intros [|k]; simpl; try done.
  - intros [= ->]. lia.
  - intros H. unfold sumZ in *. simpl. rewrite (IH _ H). lia.
Qed.

Lemma sumZ_le (l : list Z) b :
  Forall (fun x => x <= b) l -> sumZ l <= Z.of_nat (length l) * b.
Proof.
  induction 1 as [|x l Hx _ IH]; unfold sumZ in *; simpl; lia.
Qed.


(** One element below the bound leaves the sum below the bound of all. *)
Lemma sumZ_lt (l : list Z) b k x :
  Forall (fun x => x <= b) l -> l !! k = Some x -> x < b ->
  sumZ l < Z.of_nat (length l) * b.
Proof.
  intros Hall Hk Hx.
  pose proof (sumZ_insert l k x b Hk) as Hins.
  assert (Hall' : Forall (fun x => x <= b) (<[k := b]> l)).
  { apply Forall_insert; [done|lia]. }
  apply sumZ_le in Hall'. rewrite length_insert in Hall'. lia.
Qed.


Lemma sumZ_replicate n x : sumZ (replicate n x) = Z.of_nat n * x.
Proof. induction n as [|n IH]; unfold sumZ in *; simpl replicate; simpl foldr; lia. Qed.

(** ** Histories *)

Lemma history_snoc id sent id' i :
  history id (sent ++ [(id', i)]) =
  if decide (id' = id) then history id sent ++ [i] else history id sent.
Proof.
  unfold history. rewrite filter_app, fmap_app.
  rewrite filter_cons, filter_nil. simpl.
  destruct (decide (id' = id)); simpl; [done|]. by rewrite app_nil_r.
Qed.

Lemma seqZ_snoc i : 1 <= i -> seqZ 1 (i - 1) ++ [i] = seqZ 1 i.
Proof.
  intros Hi. replace i with ((i - 1) + 1) at 3 by lia.
  rewrite seqZ_app by lia. f_equal.
  rewrite seqZ_cons by lia. rewrite seqZ_nil by lia. f_equal. lia.
Qed.

(** ** The pool, whatever the flags *)

Section Sane.
Variable net : Remote.
Variable fl : Flags.

Lemma bench_sane id p p' :
  pool_sane fl p -> bench net id p = Some p' -> pool_sane fl p'.
Proof.
  intros [Hcl Hcap Hlen Hbuf Hpend] Hstep. unfold bench in Hstep.
  unfold channel in *.
  destruct (workers p !! id) as [[i|i o|]|] eqn:Hw; try done.
  - destruct (i <=? conf_requests (config p)).
    + destruct (crunchRequest (config p) (net id i)) as [o conf'] eqn:Hcr.
      apply crunchRequest_frame in Hcr as (Hc1 & Hc2 & Hc3 & Hcat).
      injection Hstep as <-.
      split; unfold channel; simpl; rewrite ?Hc1, ?Hc3; auto.
      intros id' i' o' Hl.
      apply list_lookup_insert_Some in Hl as [(-> & Heq & _)|(Hne & Hl)];
        [by injection Heq as -> ->|eauto].
    + injection Hstep as <-.
      split; unfold channel; simpl; auto.
      intros id' i' o' Hl.
      apply list_lookup_insert_Some in Hl as [(-> & Heq & _)|(Hne & Hl)];
        [done|eauto].
  - unfold send in Hstep.
    destruct (Z.ltb_spec (Z.of_nat (length (chan_buf (resultBuffer (config p)))))
                         (chan_cap (resultBuffer (config p)))) as [Hroom|];
      [|done].
    injection Hstep as <-.
    split; unfold channel; simpl; auto.
    + rewrite length_app. simpl. lia.
    + apply Forall_app. split; [done|]. constructor; [eauto|constructor].
    + intros id' i' o' Hl.
      apply list_lookup_insert_Some in Hl as [(-> & Heq & _)|(Hne & Hl)];
        [done|eauto].
Qed.

Lemma run_sane sched p : pool_sane fl p -> pool_sane fl (run net sched p).
Proof.
  revert p. induction sched as [|id sched IH]; intros p Hp; simpl; [done|].
  apply IH. destruct (bench net id p) as [p'|] eqn:Hstep; simpl; [|done].
  eapply bench_sane; eauto.
Qed.

Lemma startup_sane P args p0 : startup P fl args = inr p0 -> pool_sane fl p0.
Proof.
  unfold startup. destruct (displayVersion fl); [done|].
  destruct args as [|urlDirty [|]]; try done.
  destruct (parse_target P urlDirty); [done|].
  destruct (createHttpRequest P _ _ _ _); [done|].
  destruct (makechan P _) eqn:Hmake; [|done].
  destruct (clients fl <? 0); [done|].
  intros [= <-]. split; unfold channel; simpl; auto.
  - apply wrap64_range.
  - lia.
  - intros id i o Hl. apply lookup_replicate in Hl as [? _]. done.
Qed.

End Sane.

(** ** The pool when the flags are in range *)

Lemma worker_ok_ext quota sent sent' id w :
  history id sent' = history id sent ->
  worker_ok quota sent id w -> worker_ok quota sent' id w.
Proof. intros Heq. destruct w; simpl; by rewrite Heq. Qed.

Section InRange.
Variable net : Remote.
Variable fl : Flags.
Hypothesis Hclients : 0 <= clients fl.
Hypothesis Hrequests : 0 <= requests fl.
Hypothesis Hrange : in_range fl.
Hypothesis Hbelow : 1 <= clients fl -> requests fl < max_int64.

(** Where there is a goroutine, the loop variable can step past the
    quota. *)
Lemma quota_below p id w :
  pool_inv fl p -> workers p !! id = Some w -> requests fl < max_int64.
Proof.
  intros Hinv Hw. apply Hbelow.
  pose proof (lookup_lt_Some _ _ _ Hw) as Hid.
  rewrite (inv_workers _ _ Hinv) in Hid. lia.
Qed.

Lemma emitted_le p :
  pool_inv fl p ->
  Forall (fun x => x <= requests fl) (emitted (requests fl) <$> workers p).
Proof.
  intros Hinv. apply Forall_fmap, Forall_lookup. intros id w Hw.
  pose proof (inv_each _ _ Hinv id w Hw) as Hok.
  destruct w; simpl in *; lia.
Qed.

(** A goroutine at its send finds room on the channel. *)
Lemma room p id i o :
  pool_inv fl p -> workers p !! id = Some (Sending i o) ->
  Z.of_nat (length (channel p)) < chan_cap (resultBuffer (config p)).
Proof.
  intros Hinv Hw.
  pose proof (inv_each _ _ Hinv id _ Hw) as [Hi _].
  rewrite (inv_count _ _ Hinv), (inv_cap _ _ Hinv).
  pose proof (sumZ_lt _ (requests fl) id (i - 1) (emitted_le p Hinv)) as Hlt.
  rewrite length_fmap, (inv_workers _ _ Hinv), Z2Nat.id in Hlt by done.
  apply Hlt; [|lia]. by rewrite list_lookup_fmap, Hw.
Qed.

Lemma bench_inv id p p' :
  pool_inv fl p -> bench net id p = Some p' -> pool_inv fl p'.
Proof.
  intros Hinv Hstep. pose proof Hinv as [Hn Hq Hcap Hlen Hcount Heach].
  unfold bench in Hstep. unfold channel in *.
  destruct (workers p !! id) as [[i|i o|]|] eqn:Hw; try done.
  - pose proof (Heach id _ Hw) as [Hi Hhist].
    assert (Hem : (emitted (requests fl) <$> workers p) !! id = Some (i - 1))
      by by rewrite list_lookup_fmap, Hw.
    destruct (Z.leb_spec i (conf_requests (config p))) as [Hle|Hgt].
    + destruct (crunchRequest (config p) (net id i)) as [o conf'] eqn:Hcr.
      apply crunchRequest_frame in Hcr as (Hc1 & Hc2 & Hc3 & Hcat).
      injection Hstep as <-.
      split; unfold channel; simpl; rewrite ?Hc2, ?Hc3; auto.
      * by rewrite length_insert.
      * rewrite list_fmap_insert, (sumZ_insert _ _ _ _ Hem). simpl. lia.
      * intros id' w Hl.
        apply list_lookup_insert_Some in Hl as [(-> & <- & _)|(Hne & Hl)];
          [|eauto].
        simpl. split; [lia|done].
    + injection Hstep as <-.
      split; unfold channel; simpl; auto.
      * by rewrite length_insert.
      * rewrite list_fmap_insert, (sumZ_insert _ _ _ _ Hem). simpl. lia.
      * intros id' w Hl.
        apply list_lookup_insert_Some in Hl as [(-> & <- & _)|(Hne & Hl)];
          [|eauto].
        simpl. rewrite Hhist. f_equal. lia.
  - pose proof (Heach id _ Hw) as [Hi Hhist].
    assert (Hem : (emitted (requests fl) <$> workers p) !! id = Some (i - 1))
      by by rewrite list_lookup_fmap, Hw.
    unfold send in Hstep.
    destruct (_ <? _); [|done]. injection Hstep as <-.
    assert (Hnext : wrap64 (i + 1) = i + 1).
    { pose proof (quota_below p id _ Hinv Hw) as Hmax. apply wrap64_id.
      unfold is_int64, min_int64, max_int64 in *. lia. }
    rewrite Hnext.
    split; unfold channel; simpl; auto.
    + by rewrite length_insert.
    + rewrite !length_app. simpl. lia.
    + rewrite list_fmap_insert, (sumZ_insert _ _ _ _ Hem), length_app.
      simpl. lia.
    + intros id' w Hl.
      apply list_lookup_insert_Some in Hl as [(-> & <- & _)|(Hne & Hl)].
      * simpl. split; [lia|].
        rewrite history_snoc, decide_True, Hhist by done.
        replace (i + 1 - 1) with i by lia. apply seqZ_snoc. lia.
      * eapply worker_ok_ext; [|eauto].
        by rewrite history_snoc, decide_False.
Qed.

Lemma run_inv sched p : pool_inv fl p -> pool_inv fl (run net sched p).
Proof.
  revert p. induction sched as [|id sched IH]; intros p Hp; simpl; [done|].
  apply IH. destruct (bench net id p) as [p'|] eqn:Hstep; simpl; [|done].
  eapply bench_inv; eauto.
Qed.

Lemma startup_inv P args p0 : startup P fl args = inr p0 -> pool_inv fl p0.
Proof.
  unfold startup. destruct (displayVersion fl); [done|].
  destruct args as [|urlDirty [|]]; try done.
  destruct (parse_target P urlDirty); [done|].
  destruct (createHttpRequest P _ _ _ _); [done|].
  destruct (makechan P _); [|done]. destruct (_ <? 0); [done|].
  intros [= <-]. split; unfold channel; simpl; auto.
  - by rewrite length_replicate.
  - pose proof Hrange as Hprod. unfold in_range in Hprod.
    rewrite wrap64_id; [lia|].
    unfold is_int64, min_int64, max_int64 in *. nia.
  - rewrite fmap_replicate, sumZ_replicate. simpl. lia.
  - intros id w Hl. apply lookup_replicate in Hl as [-> _]. simpl.
    split; [lia|done].
Qed.

(** A goroutine that has not returned can take a step. *)
Lemma bench_progress id w p :
  pool_inv fl p -> workers p !! id = Some w -> w <> Done ->
  is_Some (bench net id p).
Proof.
  intros Hinv Hw Hnd. pose proof (room p id) as Hroom.
  unfold bench. rewrite Hw. destruct w as [i|i o|]; [| |done].
  - destruct (i <=? _); [destruct (crunchRequest _ _)|]; eauto.
  - specialize (Hroom i o Hinv Hw). unfold send, channel in *.
    destruct (Z.ltb_spec (Z.of_nat (length (chan_buf (resultBuffer (config p)))))
                         (chan_cap (resultBuffer (config p)))); [eauto|lia].
Qed.









End InRange.

(** A channel that [make] returned has room for fewer than [2^61]
    pointers; so, where [main] has started a goroutine, its quota is below
    the largest [int64]. *)
Lemma startup_below P fl args p0 :
  startup P fl args = inr p0 ->
  0 <= requests fl -> in_range fl -> 1 <= clients fl ->
  requests fl < max_int64.
Proof.
  unfold startup, in_range. intros Hstart Hr Hprod Hc.
  destruct (displayVersion fl); [done|].
  destruct args as [|urlDirty [|]]; try done.
  destruct (parse_target P urlDirty); [done|].
  destruct (createHttpRequest P _ _ _ _); [done|].
  destruct (makechan P _) eqn:Hmake; [|done].
  unfold makechan in Hmake. rewrite !andb_true_iff in Hmake.
  destruct Hmake as [[_ Hfit] _]. apply Z.ltb_lt in Hfit.
  rewrite wrap64_id in Hfit
    by (unfold is_int64, min_int64, max_int64 in *; nia).
  unfold max_int64 in *. nia.
Qed.

(** ** Aggregation *)

Lemma drain_snoc buf o : drain (buf ++ [o]) = count (drain buf) o.
Proof. unfold drain. by rewrite fold_left_app. Qed.

Lemma tagged_snoc c buf o :
  tagged c (buf ++ [o]) = tagged c buf + (if decide (category o = c) then 1 else 0).
Proof.
  unfold tagged. rewrite filter_app, length_app, filter_cons, filter_nil.
  destruct (decide (category o = c)); simpl; lia.
Qed.

Lemma tagged_le c buf : 0 <= tagged c buf <= Z.of_nat (length buf).
Proof.
  unfold tagged.
  pose proof (length_filter (fun o => category o = c) buf). lia.
Qed.

(** As long as the channel holds no more than an [int] can count, the
    counters of the drain loop are the numbers of values per category. *)
Lemma drain_counts buf :
  Z.of_nat (length buf) <= max_int64 ->
  total (drain buf) = Z.of_nat (length buf)
  /\ netFailed (drain buf) = tagged "net" buf
  /\ badFailed (drain buf) = tagged "bad" buf
  /\ succ (drain buf) = tagged "succ" buf.
Proof.
  induction buf as [|o buf IH] using rev_ind; [done|].
  rewrite length_app. simpl. intros Hlen.
  destruct IH as (Ht & Hn & Hb & Hs); [lia|].
  rewrite drain_snoc, !tagged_snoc.
  pose proof (tagged_le "net" buf). pose proof (tagged_le "bad" buf).
  pose proof (tagged_le "succ" buf).
  assert (Hw : forall z, 0 <= z <= Z.of_nat (length buf) -> wrap64 (z + 1) = z + 1).
  { intros z Hz. apply wrap64_id.
    unfold is_int64, min_int64, max_int64 in *. lia. }
  unfold count.
  destruct (String.eqb_spec (category o) "net") as [E|E1];
    [|destruct (String.eqb_spec (category o) "bad") as [E|E2];
      [|destruct (String.eqb_spec (category o) "succ") as [E|E3]]];
    try rewrite E; simpl; rewrite ?Ht, ?Hn, ?Hb, ?Hs, ?Hw by lia;
    repeat case_decide; try congruence; repeat split; lia.
Qed.

Lemma tagged_total buf :
  Forall known_category buf ->
  tagged "succ" buf + tagged "bad" buf + tagged "net" buf = Z.of_nat (length buf).
Proof.
  induction buf as [|o buf IH] using rev_ind; [done|].
  rewrite Forall_app, Forall_singleton. intros [Hbuf Ho].
  rewrite !tagged_snoc, length_app. specialize (IH Hbuf). simpl.
  destruct Ho as [E|[E|E]]; rewrite E; repeat case_decide; try congruence; lia.
Qed.

Lemma tagged_Permutation c buf buf' : buf ≡ₚ buf' -> tagged c buf = tagged c buf'.
Proof. intros Hperm. unfold tagged. by rewrite Hperm. Qed.

(** ** Complete runs *)


Lemma all_done_lookup p id :
  all_done p = true -> (id < length (workers p))%nat ->
  workers p !! id = Some Done.
Proof.
  unfold all_done. intros Hall Hid.
  destruct (lookup_lt_is_Some_2 _ _ Hid) as [w Hw]. rewrite Hw. f_equal.
  apply Is_true_true_2, forallb_True in Hall.
  rewrite Forall_lookup in Hall. specialize (Hall id w Hw). by destruct w.
Qed.




(** The scenario of the specification: two clients, five requests each, a
    target that answers 200 every time. *)
Example two_clients_five_requests :
  match main Samples.platform (Samples.always 200) (Samples.flags 2 5)
             ["http://example.com/path"] (Samples.round_robin 2 11) with
  | Reported t => counters t = (10, 10, 0, 0)
  | _ => False
  end.
Proof. vm_compute. reflexivity. Qed.

(** The same run on a target given without scheme: the transport refuses
    the URL at every attempt. *)
Example two_clients_no_scheme :
  match main Samples.platform (Samples.always 200) (Samples.flags 2 5)
             ["example.com/path"] (Samples.round_robin 2 11) with
  | Reported t => counters t = (10, 0, 0, 10)
  | _ => False
  end.
Proof. vm_compute. reflexivity. Qed.

(** *** A product that wraps to zero *)



(** The same flags are within reach of the runtime: it makes the channel
    of capacity 0.  A product the runtime cannot make a channel for ends
    [main] in a panic before any goroutine is started. *)
Example startup_beyond_room :
  startup Samples.platform (Samples.flags 1 (2 ^ 45)) ["http://example.com/"]
  = inl (panic "makechan: size out of range")
  /\ startup Samples.platform (Samples.flags 1 max_int64) ["http://example.com/"]
     = inl (panic "makechan: size out of range")
  /\ is_Some (match startup Samples.platform (Samples.flags 4 (2 ^ 62))
                           ["http://example.com/"] with
              | inr p0 => Some p0
              | inl _ => None
              end).
Proof. split_and!; [by vm_compute..|vm_compute; eauto]. Qed.

(** ** The capacity of the channel *)

(** C9 (amended).  When [clients] and [requests] are not negative and
    their product is at most [2^63 - 1], a [main] that has started its
    goroutines (it panics before that when the runtime cannot make a
    channel of that capacity) has made the channel with capacity
    [clients * requests]; the channel keeps that capacity, never holds
    more than that, and a goroutine at its send always completes it. *)
Theorem never_blocks_in_range P net fl args :
  0 <= clients fl -> 0 <= requests fl -> in_range fl ->
  never_blocks P net fl args.
Proof.
  intros Hc Hr Hrange p0 Hstart sched. cbv zeta.
  assert (Hbelow : 1 <= clients fl -> requests fl < max_int64)
    by (intros ?; eapply startup_below; eauto).
  assert (Hinv : pool_inv fl (run net sched p0)).
  { apply run_inv; auto. eapply startup_inv; eauto. }
  pose proof Hinv as [Hn Hq Hcap Hlen Hcount Heach].
  repeat split.
  - done.
  - rewrite Hcount, Hcap.
    pose proof (sumZ_le _ _ (emitted_le fl _ Hinv)) as Hle.
    rewrite length_fmap, Hn, Z2Nat.id in Hle by done. done.
  - intros id i o Hw. by eapply bench_progress.
Qed.

Lemma never_blocks_in_range_witness :
  (0 <= 3 /\ 0 <= 4 /\ in_range (Samples.flags 3 4))
  /\ never_blocks Samples.platform (Samples.always 503) (Samples.flags 3 4)
                  ["example.com"].
Proof.
  assert (Hrange : in_range (Samples.flags 3 4))
    by (unfold in_range, max_int64; simpl; lia).
  split; [repeat split; [lia|lia|apply Hrange..]|].
  apply (never_blocks_in_range Samples.platform (Samples.always 503)
           (Samples.flags 3 4) ["example.com"]); simpl; [lia|lia|].
  exact Hrange.
Defined.

(** C9, as stated, fails for four clients and [2^62] requests each: the
    capacity is 0, and the goroutine scheduled first stays at its first
    send. *)
Lemma never_blocks_overflow :
  ~ never_blocks Samples.platform Samples.echo (Samples.flags 4 (2 ^ 62))
                 ["example.com"].
Proof.
  intros Hnever.
  destruct (startup Samples.platform (Samples.flags 4 (2 ^ 62)) ["example.com"])
    as [e|p0] eqn:Hstart; [by vm_compute in Hstart|].
  destruct (Hnever p0 Hstart [0%nat]) as (_ & _ & Hsend).
  vm_compute in Hstart. injection Hstart as <-.
  specialize (Hsend 0%nat 1). vm_compute in Hsend.
  by destruct (Hsend _ eq_refl) as [p' Hstep].
Qed.

(** ** Categories and counters *)

(** C8.  Every value [crunchRequest] returns carries one of the three
    categories, so does every value on the channel or waiting at a send;
    and in whatever order the values of the channel are drained, the
    three category counters add up to the total and are the same. *)
Theorem categories_add_up P net fl args p0 sched buf' :
  startup P fl args = inr p0 ->
  buf' ≡ₚ channel (run net sched p0) ->
  (forall conf answer, known_category (crunchRequest conf answer).1)
  /\ (forall id i o, workers (run net sched p0) !! id = Some (Sending i o) ->
                     known_category o)
  /\ Forall known_category buf'
  /\ succ (drain buf') + badFailed (drain buf') + netFailed (drain buf')
     = total (drain buf')
  /\ counters (drain buf') = counters (drain (channel (run net sched p0))).
Proof.
  intros Hstart Hperm.
  assert (Hsane : pool_sane fl (run net sched p0))
    by (apply run_sane; eapply startup_sane; eauto).
  destruct Hsane as [_ Hcap Hlen Hbuf Hpend].
  assert (Hbuf' : Forall known_category buf') by by rewrite Hperm.
  assert (Hfits : Z.of_nat (length (channel (run net sched p0))) <= max_int64)
    by (unfold max_int64 in *; lia).
  assert (Hfits' : Z.of_nat (length buf') <= max_int64) by by rewrite Hperm.
  destruct (drain_counts _ Hfits) as (Ht & Hn & Hb & Hs).
  destruct (drain_counts _ Hfits') as (Ht' & Hn' & Hb' & Hs').
  repeat split; auto.
  - intros conf answer.
    destruct (crunchRequest conf answer) as [o conf'] eqn:Hcr.
    by apply crunchRequest_frame in Hcr as (_ & _ & _ & Hcat).
  - rewrite Ht', Hn', Hb', Hs'. by apply tagged_total.
  - unfold counters. rewrite Ht', Hn', Hb', Hs', Ht, Hn, Hb, Hs.
    by rewrite !(tagged_Permutation _ _ _ Hperm), Hperm.
Qed.

Lemma categories_add_up_witness :
  exists p0,
    let buf := channel (run Samples.flaky (Samples.round_robin 2 7) p0) in
    (startup Samples.platform (Samples.flags 2 3) ["http://example.com/"]
     = inr p0
     /\ rev buf ≡ₚ buf)
    /\ counters (drain (rev buf)) = (6, 2, 2, 2).
Proof.
  eexists. intros buf.
  assert (Hperm : rev buf ≡ₚ buf) by (symmetry; apply Permutation_rev).
  split; [split; [reflexivity|exact Hperm]|].
  destruct (categories_add_up Samples.platform Samples.flaky
              (Samples.flags 2 3) ["http://example.com/"] _
              (Samples.round_robin 2 7) (rev buf) eq_refl Hperm)
    as (_ & _ & _ & _ & ->).
  reflexivity.
Defined.

(** ** Classification of one attempt *)

(** A response whose body is read to its end is labelled by its status
    code alone: [succ] from 200 to 299, [bad] otherwise, with the body as
    payload. *)
Lemma crunchRequest_status conf net resp :
  (Do (client conf) (request conf) net).1 = inr resp ->
  body_err (resp_Body resp) = None ->
  (crunchRequest conf net).1 =
    mkOutput (if decide (200 <= StatusCode resp <= 299) then "succ" else "bad")
             (body_bytes (resp_Body resp)).
Proof.
  unfold crunchRequest.
  destruct (Do (client conf) (request conf) net) as [result req'].
  simpl. intros -> Hread. unfold ReadAll. rewrite Hread.
  destruct (Z.leb_spec 200 (StatusCode resp)), (Z.ltb_spec (StatusCode resp) 300);
    simpl; case_decide; try lia; done.
Qed.

(** The loop of the first generation labels by comparison with 200, and
    whether or not the body could be read. *)
Lemma legacy_bench_status c req net ms resp :
  (Do c req net).1 = inr resp ->
  Legacy.category (Legacy.bench c req net ms).1 =
    (if decide (StatusCode resp = 200) then "succ" else "bad")
  /\ Legacy.respBody (Legacy.bench c req net ms).1 = body_bytes (resp_Body resp).
Proof.
  unfold Legacy.bench. destruct (Do c req net) as [result req'].
  simpl. intros ->. unfold ReadAll.
  destruct (Z.eqb_spec (StatusCode resp) 200); case_decide; done.
Qed.

(** C2 at the input 201 Created.  The loop of [bench] in the first
    generation (lines 225-230) labels the response [bad]; [crunchRequest]
    (lines 615-621) labels the same response [succ]. *)
Theorem created_is_bad_in_legacy_bench :
  let answer := Samples.always 201 0%nat 1 in
  Legacy.category
    (Legacy.bench Legacy.httpClient (Samples.request "") answer 5).1 = "bad"
  /\ category
       (crunchRequest (Samples.conf (Samples.flags 1 1) "") answer).1 = "succ".
Proof. split; reflexivity. Qed.

(** C6.  When the exchange yields a response and reading its body fails
    with [err], the value returned has category [bad] and payload [err];
    it is neither [succ] nor [net]. *)
Theorem read_failure_is_bad conf net resp err :
  (Do (client conf) (request conf) net).1 = inr resp ->
  body_err (resp_Body resp) = Some err ->
  (crunchRequest conf net).1 = mkOutput "bad" err
  /\ category (crunchRequest conf net).1 <> "succ"
  /\ category (crunchRequest conf net).1 <> "net".
Proof.
  unfold crunchRequest.
  destruct (Do (client conf) (request conf) net) as [result req'].
  simpl. intros -> Hread. unfold ReadAll. rewrite Hread. by simpl.
Qed.

Lemma read_failure_is_bad_witness :
  let conf := Samples.conf (Samples.flags 1 1) "" in
  let net := Samples.truncating 0%nat 1 in
  let resp := mkResponse 200 "" (mkBody "par" (Some "unexpected EOF")) in
  ((Do (client conf) (request conf) net).1 = inr resp
   /\ body_err (resp_Body resp) = Some "unexpected EOF")
  /\ (crunchRequest conf net).1 = mkOutput "bad" "unexpected EOF".
Proof.
  intros conf net resp.
  split; [split; reflexivity|].
  apply (read_failure_is_bad conf net resp "unexpected EOF"); reflexivity.
Defined.

(** ** The redirect policy *)

(** The three answers of the policy, by the number of requests already
    made for the attempt (one more than the redirects already followed). *)
Lemma CheckRedirect_states n req reqList :
  (n = -1 -> CheckRedirect n req reqList = Some ErrUseLastResponse)
  /\ (n <> -1 -> Z.of_nat (length reqList) <= n ->
      CheckRedirect n req reqList = None)
  /\ (n <> -1 -> n < Z.of_nat (length reqList) ->
      exists msg, CheckRedirect n req reqList = Some (Errorf msg)).
Proof.
  unfold CheckRedirect. rewrite Z.gtb_ltb.
  destruct (Z.eqb_spec n (-1)), (Z.ltb_spec n (Z.of_nat (length reqList)));
    split_and!; intros; try lia; try done; by eexists.
Qed.

Section Redirects.
Variable fl : Flags.

(** With [-1] the first redirect response is handed back. *)
Lemma follow_never req via r rest last :
  redirects fl = -1 ->
  follow (httpClient fl) req via (r :: rest) last = inr r.
Proof.
  intros Hoff. simpl. unfold checkRedirect. simpl. unfold CheckRedirect.
  by rewrite Hoff.
Qed.

(** Up to [redirects] hops are followed to the last answer. *)
Lemma follow_within req via rs last :
  0 <= redirects fl ->
  Z.of_nat (length via + length rs) <= redirects fl ->
  follow (httpClient fl) req via rs last = last.
Proof.
  intros Hn. revert req via.
  induction rs as [|r rs IH]; intros req via Hlen; simpl; [done|].
  unfold checkRedirect. simpl. unfold CheckRedirect.
  destruct (Z.eqb_spec (redirects fl) (-1)); [lia|].
  rewrite Z.gtb_ltb.
  destruct (Z.ltb_spec (redirects fl) (Z.of_nat (length (via ++ [req]))))
    as [Hover|_].
  - rewrite length_app in Hover. simpl in *. lia.
  - apply IH. rewrite length_app. simpl in *. lia.
Qed.

(** One hop more and the call fails. *)
Lemma follow_beyond req via rs last :
  0 <= redirects fl ->
  Z.of_nat (length via) <= redirects fl ->
  redirects fl < Z.of_nat (length via + length rs) ->
  exists msg, follow (httpClient fl) req via rs last = inl msg.
Proof.
  intros Hn. revert req via.
  induction rs as [|r rs IH]; intros req via Hvia Hlen; simpl in *; [lia|].
  unfold checkRedirect. simpl. unfold CheckRedirect.
  destruct (Z.eqb_spec (redirects fl) (-1)); [lia|].
  rewrite Z.gtb_ltb.
  destruct (Z.ltb_spec (redirects fl) (Z.of_nat (length (via ++ [req]))))
    as [_|Hfits]; [by eexists|].
  apply IH; rewrite length_app in *; simpl in *; lia.
Qed.

End Redirects.

Lemma Do_result c req net :
  (Do c req net).1 =
  let x := (net req).2 in
  follow c req [] (hops x) (final x).
Proof. unfold Do. by destruct (net req). Qed.

(** The value of an attempt depends on what lies behind [Do] through the
    result of [Do] only. *)
Lemma crunchRequest_result conf net net' :
  (Do (client conf) (request conf) net).1
  = (Do (client conf) (request conf) net').1 ->
  (crunchRequest conf net).1 = (crunchRequest conf net').1.
Proof.
  unfold crunchRequest.
  destruct (Do (client conf) (request conf) net) as [result req1].
  destruct (Do (client conf) (request conf) net') as [result' req2].
  simpl. intros <-. destruct result as [err|resp]; [done|].
  simpl. destruct (body_err (resp_Body resp)); [done|].
  by destruct (_ && _).
Qed.

(** C3.  The policy [main] installs has three answers: use the last
    response when [redirects = -1]; otherwise follow while the requests
    already made are at most [redirects], and refuse beyond.  With the
    client [main] builds, for one attempt whose exchange meets the
    redirect responses [hops x] before the answer [final x]:
    - with [redirects = -1], the first redirect response is what the
      attempt is classified by, as if it had been the answer;
    - with [redirects = N >= 0] and at most [N] redirect responses, the
      attempt is classified as if [final x] had been the answer to the
      first request;
    - with [redirects = N >= 0] and more than [N] redirect responses
      ([N + 1] in particular), the attempt has category [net]. *)
Theorem redirect_policy fl conf net :
  client conf = httpClient fl ->
  let x := (net (request conf)).2 in
  (forall req reqList,
     (redirects fl = -1 ->
      CheckRedirect (redirects fl) req reqList = Some ErrUseLastResponse)
     /\ (redirects fl <> -1 -> Z.of_nat (length reqList) <= redirects fl ->
         CheckRedirect (redirects fl) req reqList = None)
     /\ (redirects fl <> -1 -> redirects fl < Z.of_nat (length reqList) ->
         exists msg,
           CheckRedirect (redirects fl) req reqList = Some (Errorf msg)))
  /\ (redirects fl = -1 ->
      forall r rest, hops x = r :: rest ->
        (crunchRequest conf net).1
        = (crunchRequest conf (answering net (mkExchange [] (inr r)))).1)
  /\ (0 <= redirects fl -> Z.of_nat (length (hops x)) <= redirects fl ->
      (crunchRequest conf net).1
      = (crunchRequest conf (answering net (mkExchange [] (final x)))).1)
  /\ (0 <= redirects fl -> redirects fl < Z.of_nat (length (hops x)) ->
      category (crunchRequest conf net).1 = "net").
Proof.
  intros Hclient x. split; [intros; apply CheckRedirect_states|].
  repeat split.
  - intros Hoff r rest Hhops. apply crunchRequest_result.
    rewrite !Do_result. cbv zeta. fold x. rewrite Hhops, Hclient. simpl hops.
    by rewrite follow_never.
  - intros Hn Hlen. apply crunchRequest_result.
    rewrite !Do_result. cbv zeta. fold x. rewrite Hclient. simpl hops.
    by rewrite follow_within.
  - intros Hn Hlen.
    destruct (follow_beyond fl (request conf) [] (hops x) (final x) Hn)
      as [msg Hmsg]; [simpl; lia|simpl; lia|].
    pose proof (Do_result (client conf) (request conf) net) as HDo.
    cbv zeta in HDo. fold x in HDo. rewrite Hclient, Hmsg in HDo.
    unfold crunchRequest. rewrite Hclient in *.
    destruct (Do (httpClient fl) (request conf) net) as [result req'].
    simpl in HDo. by rewrite HDo.
Qed.

Lemma redirect_policy_witness :
  let off := Samples.conf (Samples.with_redirects (-1)) "" in
  let ten := Samples.conf (Samples.with_redirects 10) "" in
  (client off = httpClient (Samples.with_redirects (-1))
   /\ client ten = httpClient (Samples.with_redirects 10))
  /\ (crunchRequest off (Samples.redirecting 3 0%nat 1)).1 = mkOutput "bad" ""
  /\ (crunchRequest ten (Samples.redirecting 10 0%nat 1)).1 = mkOutput "succ" "ok"
  /\ category (crunchRequest ten (Samples.redirecting 11 0%nat 1)).1 = "net".
Proof.
  intros off ten. split; [split; reflexivity|]. split; [|split].
  - destruct (redirect_policy (Samples.with_redirects (-1)) off
                (Samples.redirecting 3 0%nat 1) eq_refl) as (_ & Hoff & _ & _).
    rewrite (Hoff eq_refl (Samples.moved "/next")
               (replicate 2 (Samples.moved "/next")) eq_refl).
    reflexivity.
  - destruct (redirect_policy (Samples.with_redirects 10) ten
                (Samples.redirecting 10 0%nat 1) eq_refl) as (_ & _ & Hin & _).
    rewrite Hin; [reflexivity|simpl; lia|simpl; lia].
  - destruct (redirect_policy (Samples.with_redirects 10) ten
                (Samples.redirecting 11 0%nat 1) eq_refl) as (_ & _ & _ & Hout).
    apply Hout; simpl; lia.
Defined.

(** ** The request body *)

(** The header loop leaves the body stream alone. *)
Lemma add_headers_body hs req req' :
  add_headers hs req = inr req' -> req_Body req' = req_Body req.
Proof.
  revert req. induction hs as [|h hs IH]; intros req; simpl.
  - by intros [= <-].
  - destruct (extractHeaderKV h) as [e|[key value]]; [done|].
    intros Hadd. by rewrite (IH _ Hadd).
Qed.

(** A body given as [@name] reaches the pool as the file [os.Open]
    returned, unread and open, and no attempt has been made. *)
Lemma startup_file_body P fl args p0 :
  startup P fl args = inr p0 ->
  HasPrefix (requestBody fl) "@" = true ->
  (exists bytes,
     req_Body (request (config p0))
     = Opened (slice_from 1 (requestBody fl)) bytes)
  /\ sent p0 = []
  /\ Forall (fun w => forall i o, w <> Sending i o) (workers p0).
Proof.
  unfold startup. intros Hstart Hfile.
  destruct (displayVersion fl); [done|].
  destruct args as [|urlDirty [|]]; try done.
  destruct (parse_target P urlDirty); [done|].
  destruct (createHttpRequest P _ _ _ _) as [e|req] eqn:Hreq; [done|].
  destruct (makechan P _); [|done]. destruct (_ <? 0); [done|].
  injection Hstart as <-. simpl. split_and!; [|done|by apply Forall_replicate].
  unfold createHttpRequest, createHttpBody in Hreq. rewrite Hfile in Hreq.
  destruct (os_Open P _) as [err|bytes]; [done|].
  destruct (NewRequest_error P _ _); [done|].
  apply add_headers_body in Hreq. simpl in Hreq. by exists bytes.
Qed.

(** A step of the pool keeps the stream of the shared request and moves
    only its cursor; with a transport that closes the body, a file is
    closed from the first attempt on. *)
Lemma bench_closes_body net id p p' name :
  closes_body net ->
  bench net id p = Some p' ->
  rd_source (req_Body (request (config p))) = File name ->
  (sent p = [] /\ Forall (fun w => forall i o, w <> Sending i o) (workers p)
   \/ rd_closed (req_Body (request (config p))) = true) ->
  rd_source (req_Body (request (config p'))) = File name
  /\ (sent p' = [] /\ Forall (fun w => forall i o, w <> Sending i o) (workers p')
      \/ rd_closed (req_Body (request (config p'))) = true).
Proof.
  unfold bench. intros Hcloses Hstep Hsrc Hp.
  destruct (workers p !! id) as [[i|i o|]|] eqn:Hw; try done.
  - destruct (i <=? _).
    + pose proof (Hcloses id i (request (config p)) name Hsrc) as Hclosed.
      unfold crunchRequest, Do in Hstep.
      destruct (net id i (request (config p))) as [cur x].
      assert (Hreq : request (config p')
                     = with_Body (request (config p))
                                 (seek (req_Body (request (config p))) cur)).
      { destruct (follow _ _ _ _ _) as [err|resp];
          [|destruct (ReadAll _) as [bytes [err|]]; [|destruct (_ && _)]];
          by injection Hstep as <-. }
      rewrite Hreq. simpl in *. auto.
    + injection Hstep as <-. simpl. split; [done|].
      destruct Hp as [[Hs Hws]|Hclosed]; [|by right].
      left. split; [done|]. by apply Forall_insert.
  - unfold send in Hstep. destruct (_ <? _); [|done].
    injection Hstep as <-. simpl. split; [done|].
    destruct Hp as [[_ Hws]|Hclosed]; [|by right].
    rewrite Forall_lookup in Hws. by destruct (Hws id _ Hw i o).
Qed.

Lemma run_closes_body net sched p name :
  closes_body net ->
  rd_source (req_Body (request (config p))) = File name ->
  (sent p = [] /\ Forall (fun w => forall i o, w <> Sending i o) (workers p)
   \/ rd_closed (req_Body (request (config p))) = true) ->
  attempted (run net sched p) ->
  rd_closed (req_Body (request (config (run net sched p)))) = true.
Proof.
  intros Hcloses. revert p.
  induction sched as [|id sched IH]; intros p Hsrc Hp; simpl.
  - intros Hmade. destruct Hp as [[Hs Hws]|Hclosed]; [|done].
    destruct Hmade as [Hne|(id & i & o & Hw)]; [done|].
    rewrite Forall_lookup in Hws. by destruct (Hws id _ Hw i o).
  - destruct (bench net id p) as [p1|] eqn:Hstep; simpl; [|by apply IH].
    destruct (bench_closes_body net id p p1 name Hcloses Hstep Hsrc Hp).
    by apply IH.
Qed.

(** The sample transport closes the body, whatever the server. *)
Lemma served_closes_body server : closes_body (Samples.served server).
Proof.
  intros id i req name Hsrc. unfold Samples.served, Samples.roundTrip.
  destruct (negb _); [by unfold Close; rewrite Hsrc|].
  destruct (server id i) as [err|answer]; [by unfold Close; rewrite Hsrc|].
  rewrite Hsrc. destruct (rd_closed (req_Body req)) eqn:Hclosed; [done|].
  unfold drain_reader, Close. simpl. by rewrite Hsrc.
Qed.

(** A body given as a string is one [strings.Reader] for all attempts as
    well.  Against a server that sends back what it receives, the sample
    transport finds it read to its end at the second attempt and sends the
    bytes again from the copy [http.NewRequest] keeps. *)
Example literal_body_sent_again :
  match main Samples.platform Samples.echo (Samples.post 1 2 "ping")
             ["http://example.com/"] (Samples.round_robin 1 5) with
  | Reported t => Succ (file t) = ["ping"; "ping"]
  | _ => False
  end.
Proof. vm_compute. reflexivity. Qed.

(** C4 at the input [-clients 1 -requests 2 -type POST -data @body.txt
    http://example.com/], against a server that sends back what it
    receives: the first attempt sends the file, the second is handed the
    same file, closed, and fails.  [createHttpBody] runs once, in
    [createHttpRequest], and every attempt passes the one request made
    there to [Do]; so, for every configuration whose body is a file, and
    whatever lies behind [Do] as long as it closes the request body as
    [net/http] says it does, from the first attempt on every attempt, by
    whichever goroutine, finds the body closed. *)
Theorem second_attempt_finds_body_closed :
  match main Fixtures.platform_with_file Samples.echo
             (Samples.post 1 2 "@body.txt") ["http://example.com/"]
             (Samples.round_robin 1 5) with
  | Reported t => counters t = (2, 1, 0, 1) /\ Succ (file t) = ["from file"]
  | _ => False
  end
  /\ forall P net fl args p0 sched,
       closes_body net ->
       HasPrefix (requestBody fl) "@" = true ->
       startup P fl args = inr p0 ->
       attempted (run net sched p0) ->
       rd_closed (req_Body (request (config (run net sched p0)))) = true.
Proof.
  split; [vm_compute; by split|].
  intros P net fl args p0 sched Hcloses Hfile Hstart.
  destruct (startup_file_body P fl args p0 Hstart Hfile)
    as ((bytes & Hbody) & Hsent & Hws).
  apply (run_closes_body net sched p0 (slice_from 1 (requestBody fl)));
    [done|by rewrite Hbody|by left].
Qed.

Lemma second_attempt_finds_body_closed_witness :
  exists p0,
    startup Fixtures.platform_with_file (Samples.post 2 2 "@body.txt")
            ["http://example.com/"] = inr p0
    /\ (closes_body Samples.echo
        /\ HasPrefix "@body.txt" "@" = true
        /\ attempted (run Samples.echo [1]%nat p0))
    /\ rd_closed (req_Body (request (config (run Samples.echo [1]%nat p0))))
       = true.
Proof.
  eexists. split; [reflexivity|].
  match goal with
  | |- (_ /\ _ /\ attempted ?p) /\ _ =>
      assert (Hmade : attempted p)
        by (right; by exists 1%nat, 1, (mkOutput "succ" "from file"))
  end.
  split; [split_and!; [apply served_closes_body|done|exact Hmade]|].
  destruct second_attempt_finds_body_closed as [_ Hclosed].
  apply (Hclosed Fixtures.platform_with_file Samples.echo
           (Samples.post 2 2 "@body.txt") ["http://example.com/"] _ [1]%nat);
    [apply served_closes_body|done|reflexivity|exact Hmade].
Defined.

(** ** The target URL *)

(** An input without [://] reaches the parser with [//] in front. *)
Lemma prefix_target_schemeless urlDirty :
  Contains urlDirty "://" = false ->
  HasPrefix (prefix_target urlDirty) "//" = true.
Proof.
  unfold prefix_target. intros ->.
  destruct (HasPrefix urlDirty "//") eqn:Hp; simpl; [done|].
  unfold HasPrefix. simpl. by destruct urlDirty.
Qed.

(** The current [main] hands on what [url.Parse] returns. *)
Lemma parse_target_keeps_scheme P urlDirty url :
  parse_target P urlDirty = inr url ->
  url_Parse P (prefix_target urlDirty) = inr url.
Proof.
  unfold parse_target. by destruct (url_Parse P _); intros [= ->].
Qed.

(** [checkURL] of the first generation never returns an empty scheme. *)
Lemma checkURL_has_scheme P uri url :
  Legacy.checkURL P uri = inr url -> Scheme url <> "".
Proof.
  unfold Legacy.checkURL. destruct (url_Parse P _) as [err|u]; [done|].
  intros [= <-]. by destruct (String.eqb_spec (Scheme u) "").
Qed.

(** C5 at the input [example.com/path].  The current [main] (lines
    445-455) prefixes the input and keeps the empty scheme;
    [checkURL] of the first generation (lines 242-258) sets it to
    [http]. *)
Theorem schemeless_target_stays_schemeless :
  parse_target Samples.platform "example.com/path"
  = inr (mkURL "" "" "example.com" "/path" "" "")
  /\ Legacy.checkURL Samples.platform "example.com/path"
     = inr (mkURL "http" "" "example.com" "/path" "" "").
Proof. split; reflexivity. Qed.

(** ** Startup *)



(** ** The transport *)

(** C10.  Whatever the flags, the positional arguments and the platform,
    a [main] that gets to start its goroutines has built the client on a
    transport whose TLS configuration skips certificate verification, and
    that is the client every attempt of the run goes through. *)
Theorem tls_verification_disabled P net fl args p0 sched :
  startup P fl args = inr p0 ->
  InsecureSkipVerify
    <$> TLSClientConfig (client_Transport (client (config (run net sched p0))))
  = Some true.
Proof.
  intros Hstart.
  assert (Hsane : pool_sane fl (run net sched p0))
    by (apply run_sane; eapply startup_sane; eauto).
  by rewrite (sane_client _ _ Hsane).
Qed.

Lemma tls_verification_disabled_witness :
  exists p0,
    startup Samples.platform (Samples.flags 2 3) ["https://example.com/"]
    = inr p0
    /\ InsecureSkipVerify
         <$> TLSClientConfig
               (client_Transport
                  (client (config (run Samples.flaky (Samples.round_robin 2 3) p0))))
       = Some true.
Proof.
  eexists. split; [reflexivity|].
  apply (tls_verification_disabled Samples.platform Samples.flaky
           (Samples.flags 2 3) ["https://example.com/"] _
           (Samples.round_robin 2 3) eq_refl).
Defined.

(** * Further properties of the code *)

Import Files Banner More.

(** ** Strings *)

Lemma append_cons c (s t : string) : String c s +:+ t = String c (s +:+ t).
Proof. reflexivity. Qed.

Lemma append_assoc (s t u : string) : (s +:+ t) +:+ u = s +:+ (t +:+ u).
Proof.
  induction s as [|c s IH]; [done|]. by rewrite !append_cons, IH.
Qed.

Lemma append_nil_r (s : string) : s +:+ "" = s.
Proof. induction s as [|c s IH]; [done|]. by rewrite append_cons, IH. Qed.

Lemma append_length (s t : string) :
  String.length (s +:+ t) = (String.length s + String.length t)%nat.
Proof.
  induction s as [|c s IH]; [done|]. rewrite append_cons. simpl. by rewrite IH.
Qed.

Lemma Count_append s t sep : Count (s +:+ t) sep = (Count s sep + Count t sep)%nat.
Proof.
  induction s as [|c s IH]; [done|]. rewrite append_cons. simpl. rewrite IH. lia.
Qed.

(** Joining two fields that hold no separator and splitting again gives
    the two fields back. *)
Lemma Split_join key value sep :
  Count key sep = 0%nat -> Count value sep = 0%nat ->
  Split (key +:+ String sep value) sep = [key; value].
Proof.
  induction key as [|c key IH]; intros Hk Hv.
  - change ("" +:+ String sep value) with (String sep value). simpl.
    rewrite Ascii.eqb_refl. by rewrite Split_no_sep.
  - rewrite append_cons. simpl in *.
    destruct (Ascii.eqb c sep); [done|]. by rewrite IH.
Qed.

(** ** Header entries, both ways *)

Lemma extractHeaderKV_iff header key value :
  extractHeaderKV header = inr (key, value)
  <-> header = key +:+ ":" +:+ value /\ colon_free key /\ colon_free value.
Proof.
  unfold colon_free. split.
  - intros Hkv.
    destruct (decide (well_formed header)) as [Hok|Hbad];
      [|by rewrite (extractHeaderKV_malformed _ Hbad) in Hkv].
    destruct (Split_one_sep _ _ Hok) as (k & v & Hsplit & Heq & Hk & Hv).
    unfold extractHeaderKV in Hkv. rewrite Hsplit in Hkv. simpl in Hkv.
    by injection Hkv as <- <-.
  - intros (-> & Hk & Hv). unfold extractHeaderKV.
    change (":" +:+ value) with (String ":" value).
    by rewrite Split_join.
Qed.

(** X1.  [extractHeaderKV] accepts exactly the entries made of a key and a
    value without separator joined by one [:], and gives back that key
    and that value, byte for byte. *)
Theorem header_round_trip header key value :
  extractHeaderKV header = inr (key, value)
  <-> header = key +:+ ":" +:+ value /\ colon_free key /\ colon_free value.
Proof. exact (extractHeaderKV_iff header key value). Qed.

Lemma header_round_trip_witness :
  extractHeaderKV "Accept: text/html" = inr ("Accept", " text/html")
  /\ (forall key value, extractHeaderKV "Host:example.com:8080" <> inr (key, value)).
Proof.
  split.
  - apply (header_round_trip "Accept: text/html" "Accept" " text/html").
    by repeat split.
  - intros key value Hkv.
    apply (header_round_trip "Host:example.com:8080" key value) in Hkv
      as (Heq & Hk & Hv).
    assert (Hcount : Count "Host:example.com:8080" ":" = 2%nat) by reflexivity.
    rewrite Heq, !Count_append in Hcount. unfold colon_free in *.
    simpl in Hcount. lia.
Defined.

(** ** Building the request *)

Lemma createHttpBody_source P body :
  createHttpBody P body =
  match body_source P body with
  | inl err =>
      inl (log_Fatalf ("[SPOTTER]: Could not read from File "
                       +:+ slice_from 1 body +:+ " " +:+ err))
  | inr bytes => inr (body_stream body bytes)
  end.
Proof.
  unfold createHttpBody, body_source, body_stream.
  destruct (HasPrefix body "@"); [|done]. by destruct (os_Open P _).
Qed.

Lemma add_headers_iff hs r r' :
  add_headers hs r = inr r' <->
  exists kvs,
    Forall2 (fun h kv => h = kv.1 +:+ ":" +:+ kv.2
                         /\ colon_free kv.1 /\ colon_free kv.2) hs kvs
    /\ r' = mkRequest (req_Method r) (req_URL r) (req_Header r ++ kvs)
                      (req_Body r).
Proof.
  revert r. induction hs as [|h hs IH]; intros r; simpl.
  - split.
    + intros [= <-]. exists []. split; [constructor|].
      rewrite app_nil_r. by destruct r.
    + intros (kvs & Hall & ->). inversion Hall; subst.
      rewrite app_nil_r. by destruct r.
  - destruct (extractHeaderKV h) as [e|[key value]] eqn:Hkv.
    + split; [done|]. intros ([|[k v] kvs] & Hall & _); inversion Hall; subst.
      match goal with H : _ /\ _ /\ _ |- _ => apply extractHeaderKV_iff in H end.
      congruence.
    + apply extractHeaderKV_iff in Hkv. rewrite IH. simpl. split.
      * intros (kvs & Hall & ->). exists ((key, value) :: kvs).
        split; [by constructor|]. by rewrite <- app_assoc.
      * intros ([|[k v] kvs] & Hall & ->); inversion Hall as [|? ? ? ? Hh Hrest];
          subst. exists kvs. split; [done|].
        apply extractHeaderKV_iff in Hh. apply extractHeaderKV_iff in Hkv.
        rewrite Hkv in Hh. injection Hh as <- <-. by rewrite <- app_assoc.
Qed.

(** X2.  [createHttpRequest] returns a request exactly when the body can
    be sourced (a literal, or the file named after [@]), [http.NewRequest]
    has no error for the method and the URL text, and every header entry
    is one key and one value around a single [:].  The request then has
    the method ([GET] for an empty one), the URL text, a body stream at
    the start of the sourced bytes (the opened file, or a reader on the
    literal), and one header pair per entry, in the order of the
    entries. *)
Theorem createHttpRequest_succeeds P method body hs url req :
  createHttpRequest P method body hs url = inr req <->
  (exists bytes, body_source P body = inr bytes
                 /\ req_Body req = body_stream body bytes)
  /\ NewRequest_error P method (url_String P url) = None
  /\ req_Method req = (if String.eqb method "" then "GET" else method)
  /\ req_URL req = url_String P url
  /\ Forall2 (fun h kv => h = kv.1 +:+ ":" +:+ kv.2
                          /\ colon_free kv.1 /\ colon_free kv.2)
             hs (req_Header req).
Proof.
  unfold createHttpRequest. rewrite createHttpBody_source.
  destruct (body_source P body) as [err|bytes].
  { split; [done|]. by intros [(? & ? & _) _]. }
  destruct (NewRequest_error P method (url_String P url)) as [err|].
  { split; [done|]. by intros (_ & ? & _). }
  rewrite add_headers_iff. simpl. split.
  - intros (kvs & Hall & ->). simpl. eauto 10.
  - intros ((bytes' & [= <-] & Hbody) & _ & Hm & Hu & Hall).
    exists (req_Header req). split; [done|].
    destruct req; simpl in *. by subst.
Qed.

Lemma createHttpRequest_succeeds_witness :
  createHttpRequest Fixtures.platform_with_file "" "@body.txt"
                    ["Accept:*/*"; "Accept:text/html"]
                    (mkURL "http" "" "example.com" "/" "" "")
  = inr (mkRequest "GET" "http://example.com/"
                   [("Accept", "*/*"); ("Accept", "text/html")]
                   (Opened "body.txt" "from file")).
Proof.
  apply (createHttpRequest_succeeds Fixtures.platform_with_file "" "@body.txt"
           ["Accept:*/*"; "Accept:text/html"]
           (mkURL "http" "" "example.com" "/" "" "")).
  split; [by exists "from file"|].
  do 3 (split; [reflexivity|]).
  repeat constructor.
Defined.

(** X3.  [createHttpRequest] reports the first thing that is wrong, in
    this order: a body file that cannot be opened, whatever the method and
    the headers; then the error of [http.NewRequest], whatever the
    headers; then the first malformed header entry. *)
Theorem createHttpRequest_failure_order P method body hs url :
  (forall err, body_source P body = inl err ->
     createHttpRequest P method body hs url
     = inl (log_Fatalf ("[SPOTTER]: Could not read from File "
                        +:+ slice_from 1 body +:+ " " +:+ err)))
  /\ (forall bytes err,
        body_source P body = inr bytes ->
        NewRequest_error P method (url_String P url) = Some err ->
        createHttpRequest P method body hs url
        = inl (log_Fatalf ("[SPOTTER]: Couldn't create HTTP Request:"
                           +:+ newline +:+ err)))
  /\ (forall bytes ok h rest,
        body_source P body = inr bytes ->
        NewRequest_error P method (url_String P url) = None ->
        hs = ok ++ h :: rest -> Forall well_formed ok -> ~ well_formed h ->
        createHttpRequest P method body hs url = inl (malformed_header h)).
Proof.
  unfold createHttpRequest. rewrite createHttpBody_source.
  split_and!.
  - by intros err ->.
  - by intros bytes err -> ->.
  - intros bytes ok h rest -> -> -> Hok Hbad.
    match goal with
    | |- add_headers _ ?r = _ =>
        destruct (add_headers_malformed (ok ++ h :: rest) r)
          as (ok' & h' & rest' & Heq & Hok' & Hbad' & ->)
    end.
    { apply Exists_app. right. by constructor. }
    f_equal. f_equal.
    clear -Heq Hok Hbad Hok' Hbad'. revert ok' Heq Hok'.
    induction Hok as [|x ok Hx Hok IH]; intros [|y ok'] Heq Hok'; simpl in *.
    + by injection Heq as ->.
    + injection Heq as -> _. by inversion Hok'.
    + injection Heq as -> _. contradiction.
    + injection Heq as -> Heq. inversion Hok'; subst. by eapply IH.
Qed.

Lemma createHttpRequest_failure_order_witness :
  createHttpRequest Fixtures.platform_with_file "BAD METHOD" "@missing"
                    ["X-Foo"] (mkURL "http" "" "example.com" "/" "" "")
  = inl (log_Fatalf "[SPOTTER]: Could not read from File missing open missing: no such file or directory")
  /\ createHttpRequest Fixtures.platform_with_file "BAD METHOD" "data"
                       ["X-Foo"] (mkURL "http" "" "example.com" "/" "" "")
     = inl (log_Fatalf ("[SPOTTER]: Couldn't create HTTP Request:"
                        +:+ newline +:+ "net/http: invalid method"))
  /\ createHttpRequest Fixtures.platform_with_file "GET" "data"
                       ["A:b"; "X-Foo"; "c"]
                       (mkURL "http" "" "example.com" "/" "" "")
     = inl (malformed_header "X-Foo").
Proof.
  split; [|split].
  - destruct (createHttpRequest_failure_order Fixtures.platform_with_file
                "BAD METHOD" "@missing" ["X-Foo"]
                (mkURL "http" "" "example.com" "/" "" "")) as (Hbody & _ & _).
    exact (Hbody _ eq_refl).
  - destruct (createHttpRequest_failure_order Fixtures.platform_with_file
                "BAD METHOD" "data" ["X-Foo"]
                (mkURL "http" "" "example.com" "/" "" "")) as (_ & Hnew & _).
    exact (Hnew "data" _ eq_refl eq_refl).
  - destruct (createHttpRequest_failure_order Fixtures.platform_with_file
                "GET" "data" ["A:b"; "X-Foo"; "c"]
                (mkURL "http" "" "example.com" "/" "" "")) as (_ & _ & Hhdr).
    apply (Hhdr "data" ["A:b"] "X-Foo" ["c"] eq_refl eq_refl eq_refl).
    + by repeat constructor.
    + discriminate.
Defined.

(** ** The pool as [main] starts it *)

(** What [main] has checked and set up when it starts the goroutines. *)
Lemma startup_pool P fl args p0 :
  startup P fl args = inr p0 ->
  displayVersion fl = false
  /\ 0 <= clients fl
  /\ makechan P (chan_cap (resultBuffer (config p0))) = true
  /\ chan_cap (resultBuffer (config p0)) = wrap64 (requests fl * clients fl)
  /\ workers p0 = replicate (Z.to_nat (clients fl)) (Looping 1)
  /\ channel p0 = [] /\ sent p0 = []
  /\ conf_requests (config p0) = requests fl
  /\ exists urlDirty urlClean,
       args = [urlDirty]
       /\ url_Parse P (prefix_target urlDirty) = inr urlClean
       /\ createHttpRequest P (requestMethod fl) (requestBody fl)
                            (requestHeaders fl) urlClean
          = inr (request (config p0)).
Proof.
  unfold startup, parse_target.
  destruct (displayVersion fl); [done|].
  destruct args as [|urlDirty [|]]; try done.
  destruct (url_Parse P _) as [|urlClean] eqn:Hparse; [done|].
  destruct (createHttpRequest P _ _ _ _) as [e|req] eqn:Hreq; [done|].
  destruct (makechan P _) eqn:Hmake; [|done].
  destruct (Z.ltb_spec (clients fl) 0); [done|].
  intros [= <-]. unfold channel. simpl. split_and!; try done.
  by exists urlDirty, urlClean.
Qed.

(** ** What a run keeps *)

Lemma bench_keeps net id p p' :
  bench net id p = Some p' ->
  client (config p') = client (config p)
  /\ conf_requests (config p') = conf_requests (config p)
  /\ chan_cap (resultBuffer (config p')) = chan_cap (resultBuffer (config p))
  /\ length (workers p') = length (workers p)
  /\ channel p `prefix_of` channel p'
  /\ sent p `prefix_of` sent p'.
Proof.
  unfold bench, channel. intros Hstep.
  destruct (workers p !! id) as [[i|i o|]|] eqn:Hw; try done.
  - destruct (i <=? _).
    + destruct (crunchRequest (config p) (net id i)) as [o conf'] eqn:Hcr.
      apply crunchRequest_frame in Hcr as (Hc1 & Hc2 & Hc3 & _).
      injection Hstep as <-. simpl in *. rewrite Hc3, length_insert.
      by split_and!.
    + injection Hstep as <-. simpl. rewrite length_insert. by split_and!.
  - unfold send in Hstep. destruct (_ <? _); [|done].
    injection Hstep as <-. simpl. rewrite length_insert.
    split_and!; try done; by apply prefix_app_r.
Qed.

Lemma run_frame net sched p :
  let p' := run net sched p in
  client (config p') = client (config p)
  /\ conf_requests (config p') = conf_requests (config p)
  /\ chan_cap (resultBuffer (config p')) = chan_cap (resultBuffer (config p))
  /\ length (workers p') = length (workers p)
  /\ channel p `prefix_of` channel p'
  /\ sent p `prefix_of` sent p'.
Proof.
  revert p. induction sched as [|id sched IH]; intros p; simpl; [done|].
  destruct (bench net id p) as [p1|] eqn:Hstep; simpl; [|apply IH].
  apply bench_keeps in Hstep as (H2 & H3 & H4 & H5 & H6 & H7).
  destruct (IH p1) as (I2 & I3 & I4 & I5 & I6 & I7).
  split_and!; try congruence; by etrans.
Qed.

(** X5.  Whatever the flags, the schedule and what lies behind [Do], the
    goroutines of a run change neither the client, nor the quota, nor the
    capacity of the channel; the pool keeps the number of goroutines it
    started with; and a run only ever appends to the channel, leaving
    what is on it in place and in order. *)
Theorem run_keeps net sched p :
  let p' := run net sched p in
  client (config p') = client (config p)
  /\ conf_requests (config p') = conf_requests (config p)
  /\ chan_cap (resultBuffer (config p')) = chan_cap (resultBuffer (config p))
  /\ length (workers p') = length (workers p)
  /\ channel p `prefix_of` channel p'
  /\ sent p `prefix_of` sent p'.
Proof. exact (run_frame net sched p). Qed.

(** ** A quota that is not positive *)





(** ** The categorised bodies *)

Lemma bodies_snoc c buf o :
  bodies c (buf ++ [o]) =
  bodies c buf ++ (if decide (category o = c) then [respBody o] else []).
Proof.
  unfold bodies. rewrite filter_app, fmap_app, filter_cons, filter_nil.
  by destruct (decide (category o = c)).
Qed.

Lemma drain_file buf :
  Net (file (drain buf)) = bodies "net" buf
  /\ Bad (file (drain buf)) = bodies "bad" buf
  /\ Succ (file (drain buf)) = bodies "succ" buf.
Proof.
  induction buf as [|o buf IH] using rev_ind; [done|].
  destruct IH as (Hn & Hb & Hs).
  rewrite drain_snoc, !bodies_snoc. unfold count.
  destruct (String.eqb_spec (category o) "net") as [E|E1];
    [|destruct (String.eqb_spec (category o) "bad") as [E|E2];
      [|destruct (String.eqb_spec (category o) "succ") as [E|E3]]];
    try rewrite E; simpl; rewrite ?Hn, ?Hb, ?Hs;
    repeat case_decide; try congruence; by rewrite ?app_nil_r.
Qed.

(** X7.  The drain loop files the payloads by category, each list in the
    order of the channel; a value whose category is none of the three is
    filed nowhere.  As long as the channel holds no more than an [int]
    can count, the total is the number of values drained, such a value
    included, and each counter is the length of its list. *)
Theorem drain_files_by_category buf :
  (Net (file (drain buf)) = bodies "net" buf
   /\ Bad (file (drain buf)) = bodies "bad" buf
   /\ Succ (file (drain buf)) = bodies "succ" buf)
  /\ (Z.of_nat (length buf) <= max_int64 ->
      total (drain buf) = Z.of_nat (length buf)
      /\ netFailed (drain buf) = Z.of_nat (length (Net (file (drain buf))))
      /\ badFailed (drain buf) = Z.of_nat (length (Bad (file (drain buf))))
      /\ succ (drain buf) = Z.of_nat (length (Succ (file (drain buf))))).
Proof.
  split; [apply drain_file|]. intros Hlen.
  destruct (drain_counts buf Hlen) as (-> & -> & -> & ->).
  destruct (drain_file buf) as (-> & -> & ->).
  unfold bodies, tagged. by rewrite !length_fmap.
Qed.

Lemma drain_files_by_category_witness :
  let buf := [mkOutput "succ" "a"; mkOutput "net" "refused"; mkOutput "" "?";
              mkOutput "succ" "b"] in
  Z.of_nat (length buf) <= max_int64
  /\ Succ (file (drain buf)) = ["a"; "b"]
  /\ total (drain buf) = 4 /\ succ (drain buf) = 2.
Proof.
  intros buf.
  assert (Hlen : Z.of_nat (length buf) <= max_int64) by (by vm_compute).
  destruct (drain_files_by_category buf) as ((_ & _ & HS) & Hcount).
  destruct (Hcount Hlen) as (Ht & _ & _ & Hs).
  split; [exact Hlen|]. rewrite Ht, Hs, HS. by split_and!.
Defined.

(** ** The loop of the first generation *)

(** X8.  In the first generation, one turn of the loop of [bench] labels a
    response by comparison of its status with 200 even when reading its
    body failed: the read error is dropped and the payload is what was
    read up to it.  A transport failure is labelled [net] with the error
    text.  The [timedOut] mark is set exactly when the call took 120000
    milliseconds or more. *)
Theorem legacy_bench_ignores_read_failure c req net ms :
  let out := (Legacy.bench c req net ms).1 in
  Legacy.timedOut out = bool_decide (120000 <= ms)
  /\ (forall err, (Do c req net).1 = inl err ->
        Legacy.category out = "net" /\ Legacy.respBody out = err)
  /\ (forall resp, (Do c req net).1 = inr resp ->
        Legacy.category out
        = (if decide (StatusCode resp = 200) then "succ" else "bad")
        /\ Legacy.respBody out = body_bytes (resp_Body resp)).
Proof.
  unfold Legacy.bench. destruct (Do c req net) as [[err|resp] req']; simpl.
  - split_and!.
    + by destruct (Z.leb_spec 120000 ms); case_bool_decide; try lia.
    + by intros ? [= ->].
    + done.
  - unfold ReadAll.
    destruct (Z.eqb_spec (StatusCode resp) 200); simpl; split_and!;
      try done;
      try (by destruct (Z.leb_spec 120000 ms); case_bool_decide; try lia);
      intros ? [= <-]; by case_decide.
Qed.

Lemma legacy_bench_ignores_read_failure_witness :
  let out := (Legacy.bench Legacy.httpClient (Samples.request "")
                (Samples.truncating 0%nat 1) 120000).1 in
  out = Legacy.mkOutput "succ" true "par".
Proof.
  intros out.
  destruct (legacy_bench_ignores_read_failure Legacy.httpClient
              (Samples.request "") (Samples.truncating 0%nat 1) 120000)
    as (Ht & _ & Hresp).
  destruct (Hresp (mkResponse 200 "" (mkBody "par" (Some "unexpected EOF")))
              eq_refl) as (Hc & Hb).
  fold out in Ht, Hc, Hb. destruct out as [cat t body]. simpl in *.
  by rewrite Ht, Hc, Hb.
Defined.

(** ** Redirect limits below -1 *)

Lemma follow_refuses fl req via r rs last :
  redirects fl < -1 ->
  exists msg, follow (httpClient fl) req via (r :: rs) last = inl msg.
Proof.
  intros Hneg. simpl. unfold checkRedirect. simpl. unfold CheckRedirect.
  destruct (Z.eqb_spec (redirects fl) (-1)); [lia|].
  rewrite Z.gtb_ltb.
  destruct (Z.ltb_spec (redirects fl) (Z.of_nat (length (via ++ [req]))));
    [by eexists|lia].
Qed.

(** X9.  Only [-1] means "do not follow".  With any smaller value of the
    [redirects] flag the policy refuses the first redirect it is asked
    about, so an attempt that meets a redirect response has category
    [net]; an attempt that meets none is classified as usual. *)
Theorem redirects_below_minus_one fl conf net :
  client conf = httpClient fl ->
  redirects fl < -1 ->
  let x := (net (request conf)).2 in
  (hops x <> [] -> category (crunchRequest conf net).1 = "net")
  /\ (hops x = [] ->
      (crunchRequest conf net).1
      = (crunchRequest conf (answering net (mkExchange [] (final x)))).1).
Proof.
  intros Hclient Hneg x. split.
  - intros Hhops.
    destruct (hops x) as [|r rs] eqn:Hx; [done|].
    destruct (follow_refuses fl (request conf) [] r rs (final x) Hneg)
      as [msg Hmsg].
    pose proof (Do_result (client conf) (request conf) net) as HDo.
    cbv zeta in HDo. fold x in HDo. rewrite Hx, Hclient, Hmsg in HDo.
    unfold crunchRequest. rewrite Hclient in *.
    destruct (Do (httpClient fl) (request conf) net) as [result req'].
    simpl in HDo. by rewrite HDo.
  - intros Hnone. apply crunchRequest_result.
    rewrite !Do_result. cbv zeta. fold x. by rewrite Hnone.
Qed.

Lemma redirects_below_minus_one_witness :
  let conf := Samples.conf (Samples.with_redirects (-2)) "" in
  (client conf = httpClient (Samples.with_redirects (-2)) /\ -2 < -1)
  /\ category (crunchRequest conf (Samples.redirecting 1 0%nat 1)).1 = "net"
  /\ (crunchRequest conf (Samples.always 200 0%nat 1)).1 = mkOutput "succ" "ok".
Proof.
  intros conf. split; [split; [reflexivity|lia]|].
  split.
  - destruct (redirects_below_minus_one (Samples.with_redirects (-2)) conf
                (Samples.redirecting 1 0%nat 1) eq_refl ltac:(simpl; lia))
      as [Hnet _].
    by apply Hnet.
  - destruct (redirects_below_minus_one (Samples.with_redirects (-2)) conf
                (Samples.always 200 0%nat 1) eq_refl ltac:(simpl; lia))
      as [_ Hplain].
    by rewrite Hplain.
Defined.

(** ** Normalising the target *)

Lemma HasPrefix_prefixed u : HasPrefix ("//" +:+ u) "//" = true.
Proof. unfold HasPrefix. simpl. by destruct u. Qed.

(** X10.  The prefixing step of [main] leaves alone an input that holds
    [://] anywhere or starts with [//], and puts [//] in front of any
    other; applying it twice is applying it once. *)
Theorem prefix_target_idempotent urlDirty :
  prefix_target (prefix_target urlDirty) = prefix_target urlDirty
  /\ (Contains urlDirty "://" = true \/ HasPrefix urlDirty "//" = true ->
      prefix_target urlDirty = urlDirty)
  /\ (Contains urlDirty "://" = false -> HasPrefix urlDirty "//" = false ->
      prefix_target urlDirty = "//" +:+ urlDirty).
Proof.
  assert (Hkeep : forall u, Contains u "://" = true \/ HasPrefix u "//" = true ->
                            prefix_target u = u).
  { intros u. unfold prefix_target.
    intros [-> | ->]; simpl; [done|by rewrite andb_false_r]. }
  assert (Hadd : Contains urlDirty "://" = false ->
                 HasPrefix urlDirty "//" = false ->
                 prefix_target urlDirty = "//" +:+ urlDirty).
  { unfold prefix_target. by intros -> ->. }
  split_and!; [|apply Hkeep|exact Hadd].
  destruct (Contains urlDirty "://") eqn:Hc;
    [rewrite (Hkeep urlDirty) by auto; apply Hkeep; auto|].
  destruct (HasPrefix urlDirty "//") eqn:Hp;
    [rewrite (Hkeep urlDirty) by auto; apply Hkeep; auto|].
  rewrite Hadd by done. apply Hkeep. right. apply HasPrefix_prefixed.
Qed.

Lemma prefix_target_idempotent_witness :
  prefix_target "example.com/?next=http://other" = "example.com/?next=http://other"
  /\ prefix_target "example.com:8080" = "//example.com:8080".
Proof.
  destruct (prefix_target_idempotent "example.com/?next=http://other")
    as (_ & Hkeep & _).
  destruct (prefix_target_idempotent "example.com:8080") as (_ & _ & Hadd).
  split; [apply Hkeep; by left|by apply Hadd].
Defined.

(** X11.  The two generations parse the same prefixed text.  Where the
    current [main] exits with status 1, [checkURL] ends the process
    through [log.Fatalf]; where [main] goes on with a URL, [checkURL]
    returns the same URL, except that an empty scheme is [http].  So
    [checkURL] never returns an empty scheme, and the two agree on every
    target that has a scheme. *)
Theorem checkURL_versus_main P uri :
  match parse_target P uri with
  | inl e => e = os_Exit 1 /\ exists msg, Legacy.checkURL P uri = inl (log_Fatalf msg)
  | inr url =>
      Legacy.checkURL P uri
      = inr (if String.eqb (Scheme url) "" then with_Scheme url "http" else url)
      /\ (Scheme url <> "" -> Legacy.checkURL P uri = inr url)
      /\ (forall url', Legacy.checkURL P uri = inr url' -> Scheme url' <> "")
  end.
Proof.
  unfold parse_target, Legacy.checkURL, prefix_target.
  destruct (url_Parse P _) as [err|url]; [split; [done|by eexists]|].
  split_and!; [done| |].
  - intros Hs. by destruct (String.eqb_spec (Scheme url) "").
  - intros url' [= <-]. by destruct (String.eqb_spec (Scheme url) "").
Qed.

Lemma checkURL_versus_main_witness :
  Legacy.checkURL Samples.platform "https://example.com/x"
  = inr (mkURL "https" "" "example.com" "/x" "" "")
  /\ parse_target Samples.platform "https://example.com/x"
     = inr (mkURL "https" "" "example.com" "/x" "" "").
Proof.
  pose proof (checkURL_versus_main Samples.platform "https://example.com/x")
    as Hsame.
  assert (Hmain : parse_target Samples.platform "https://example.com/x"
                  = inr (mkURL "https" "" "example.com" "/x" "" ""))
    by reflexivity.
  rewrite Hmain in Hsame. destruct Hsame as (_ & Hscheme & _).
  split; [by apply Hscheme|exact Hmain].
Defined.

(** ** The report and the schedule *)

Lemma follow_via_length fl req req' via via' rs last :
  length via = length via' ->
  follow (httpClient fl) req via rs last
  = follow (httpClient fl) req' via' rs last.
Proof.
  revert req req' via via'.
  induction rs as [|r rs IH]; intros req req' via via' Hlen; simpl; [done|].
  unfold checkRedirect. simpl. unfold CheckRedirect.
  rewrite !length_app, Hlen. simpl.
  destruct (redirects fl =? -1); [done|].
  destruct (_ >? _); [done|].
  apply IH. by rewrite !length_app, Hlen.
Qed.

(** Where what comes back does not depend on the cursor of the body
    stream, neither does the value of an attempt; and an attempt moves
    nothing of the shared request but that cursor. *)
Lemma crunchRequest_blind fl conf conf0 answer cur :
  client conf = httpClient fl -> client conf0 = httpClient fl ->
  request conf = with_Body (request conf0) (seek (req_Body (request conf0)) cur) ->
  (forall cur', (answer (with_Body (request conf0)
                                   (seek (req_Body (request conf0)) cur'))).2
                = (answer (request conf0)).2) ->
  (crunchRequest conf answer).1 = (crunchRequest conf0 answer).1
  /\ exists cur',
       request (crunchRequest conf answer).2
       = with_Body (request conf0) (seek (req_Body (request conf0)) cur').
Proof.
  intros Hc Hc' Hreq Hblind. unfold crunchRequest, Do.
  rewrite Hc, Hc', Hreq. specialize (Hblind cur).
  destruct (answer (with_Body _ _)) as [cur1 x1].
  destruct (answer (request conf0)) as [cur0 x0]. simpl in Hblind. subst x1.
  rewrite (follow_via_length fl _ (request conf0) [] []) by done.
  destruct (follow _ _ _ _ _) as [err|resp]; simpl; [by eauto|].
  destruct (body_err (resp_Body resp)); [by eauto|].
  destruct (_ && _); by eauto.
Qed.

Section Blind.
Variable net : Remote.
Variable fl : Flags.
Variable conf0 : Configuration.
Hypothesis Hblind : body_blind net (request conf0).
Hypothesis Hclient0 : client conf0 = httpClient fl.

Lemma bench_tied id p p' :
  tied conf0 net p -> bench net id p = Some p' -> tied conf0 net p'.
Proof.
  intros (Hc & [cur Hreq] & Hch & Hpend) Hstep. unfold bench in Hstep.
  unfold tied, channel in *.
  destruct (workers p !! id) as [[i|i o|]|] eqn:Hw; try done.
  - destruct (i <=? _).
    + destruct (crunchRequest_blind fl (config p) conf0 (net id i) cur)
        as [Hout [cur' Hreq']]; [congruence|done|done|apply Hblind|].
      destruct (crunchRequest (config p) (net id i)) as [o conf'] eqn:Hcr.
      apply crunchRequest_frame in Hcr as (Hc1 & Hc2 & Hc3 & _).
      injection Hstep as <-. simpl in *. rewrite Hc1, Hc3.
      split_and!; try done; [by eauto|]. intros id' i' o' Hl.
      apply list_lookup_insert_Some in Hl as [(-> & Heq & _)|(Hne & Hl)];
        [|eauto].
      by injection Heq as <- <-.
    + injection Hstep as <-. simpl. split_and!; try done; [by eauto|].
      intros id' i' o' Hl.
      apply list_lookup_insert_Some in Hl as [(-> & Heq & _)|(Hne & Hl)];
        [done|eauto].
  - unfold send in Hstep. destruct (_ <? _); [|done].
    injection Hstep as <-. simpl. split_and!; try done; [by eauto| |].
    + rewrite fmap_app, Hch. simpl. f_equal. f_equal. by apply Hpend.
    + intros id' i' o' Hl.
      apply list_lookup_insert_Some in Hl as [(-> & Heq & _)|(Hne & Hl)];
        [done|eauto].
Qed.

Lemma run_tied sched p : tied conf0 net p -> tied conf0 net (run net sched p).
Proof.
  revert p. induction sched as [|id sched IH]; intros p Hp; simpl; [done|].
  apply IH. destruct (bench net id p) as [p'|] eqn:Hstep; simpl; [|done].
  by eapply bench_tied.
Qed.

End Blind.

(** Every entry of the history names a goroutine of the pool. *)
Lemma run_sent_ids net sched p :
  Forall (fun e => (e.1 < length (workers p))%nat) (sent p) ->
  Forall (fun e => (e.1 < length (workers p))%nat) (sent (run net sched p)).
Proof.
  revert p. induction sched as [|id sched IH]; intros p Hp; simpl; [done|].
  destruct (bench net id p) as [p'|] eqn:Hstep; simpl; [|by apply IH].
  pose proof (bench_keeps net id p p' Hstep) as (_ & _ & _ & Hlen & _).
  rewrite <- Hlen. apply IH. rewrite Hlen.
  unfold bench in Hstep.
  destruct (workers p !! id) as [[i|i o|]|] eqn:Hw; try done.
  - destruct (i <=? _); [destruct (crunchRequest _ _)|];
      by injection Hstep as <-.
  - destruct (send _ _); [|done]. injection Hstep as <-. simpl.
    apply Forall_app. split; [done|]. constructor; [|constructor].
    simpl. by eapply lookup_lt_Some.
Qed.

Lemma elem_of_history id i (l : list (nat * Z)) :
  i ∈ history id l <-> (id, i) ∈ l.
Proof.
  unfold history. rewrite list_elem_of_fmap. split.
  - intros ([id' i'] & -> & Hin). apply list_elem_of_filter in Hin as [Hid Hin].
    simpl in *. by subst.
  - intros Hin. exists (id, i). split; [done|].
    by apply list_elem_of_filter.
Qed.

Lemma NoDup_by_history (l : list (nat * Z)) :
  (forall id, NoDup (history id l)) -> NoDup l.
Proof.
  induction l as [|[a i] l IH]; intros Hall; [constructor|].
  apply NoDup_cons. split.
  - specialize (Hall a). unfold history in Hall.
    rewrite filter_cons_True, fmap_cons in Hall by done.
    apply NoDup_cons in Hall as [Hnotin _].
    intros Hin. apply Hnotin. by apply elem_of_history.
  - apply IH. intros id. specialize (Hall id). unfold history in *.
    rewrite filter_cons in Hall. destruct (decide _); [|done].
    rewrite fmap_cons in Hall. by apply NoDup_cons in Hall as [_ ?].
Qed.

(** Two histories that agree goroutine by goroutine, with no attempt
    twice, are rearrangements of each other. *)
Lemma same_histories (l1 l2 : list (nat * Z)) :
  (forall id, history id l1 = history id l2) ->
  (forall id, NoDup (history id l1)) ->
  l1 ≡ₚ l2.
Proof.
  intros Hsame Hnodup. apply NoDup_Permutation.
  - by apply NoDup_by_history.
  - apply NoDup_by_history. intros id. rewrite <- Hsame. apply Hnodup.
  - intros [id i]. by rewrite <- !elem_of_history, Hsame.
Qed.

Lemma history_outside id (l : list (nat * Z)) n :
  Forall (fun e => (e.1 < n)%nat) l -> (n <= id)%nat -> history id l = [].
Proof.
  intros Hall Hid. unfold history.
  induction Hall as [|e l He _ IH]; [done|].
  rewrite filter_cons_False; [done|]. lia.
Qed.

Lemma startup_tied P net fl args p0 :
  startup P fl args = inr p0 ->
  tied (config p0) net p0
  /\ Forall (fun e => (e.1 < length (workers p0))%nat) (sent p0).
Proof.
  intros Hstart.
  destruct (startup_pool P fl args p0 Hstart)
    as (_ & _ & _ & _ & Hws & Hch & Hsent & _).
  split; [|by rewrite Hsent]. unfold tied. rewrite Hch, Hsent.
  split_and!; try done.
  - exists (cursor (req_Body (request (config p0)))).
    by destruct (request (config p0)) as [? ? ? []].
  - intros id i o Hw. rewrite Hws in Hw.
    by apply lookup_replicate in Hw as [? _].
Qed.

(** X12.  When what comes back for an attempt is fixed by the goroutine
    and the number of the attempt, and does not depend on where earlier
    attempts have left the body stream of the shared request, and the
    product of the flags is in range, the report does not depend on how
    the goroutines were scheduled: any two runs that reach the report
    print the same four counters and file the same payloads under each
    category, up to their order. *)
Theorem report_independent_of_schedule P net fl args p0 s1 s2 t1 t2 :
  0 <= clients fl -> 0 <= requests fl -> in_range fl ->
  startup P fl args = inr p0 ->
  body_blind net (request (config p0)) ->
  main P net fl args s1 = Reported t1 ->
  main P net fl args s2 = Reported t2 ->
  counters t1 = counters t2
  /\ Net (file t1) ≡ₚ Net (file t2)
  /\ Bad (file t1) ≡ₚ Bad (file t2)
  /\ Succ (file t1) ≡ₚ Succ (file t2).
Proof.
  intros Hc Hr Hrange Hstart Hblind. unfold main. rewrite Hstart.
  destruct (all_done (run net s1 p0)) eqn:Hd1; [|done].
  destruct (all_done (run net s2 p0)) eqn:Hd2; [|done].
  intros [= <-] [= <-]. fold (channel (run net s1 p0)) (channel (run net s2 p0)).
  assert (Hbelow : 1 <= clients fl -> requests fl < max_int64)
    by (intros ?; eapply startup_below; eauto).
  assert (Hinv0 : pool_inv fl p0) by (eapply startup_inv; eauto).
  destruct (startup_tied P net fl args p0 Hstart) as [Htied0 Hids0].
  assert (Hclient0 : client (config p0) = httpClient fl)
    by (eapply sane_client, startup_sane; eauto).
  assert (Hfinal : forall s, all_done (run net s p0) = true ->
            forall id, history id (sent (run net s p0))
                       = if decide (id < Z.to_nat (clients fl))%nat
                         then seqZ 1 (requests fl) else []).
  { intros s Hd id.
    assert (Hinv : pool_inv fl (run net s p0)) by (by apply run_inv).
    pose proof (run_sent_ids net s p0 Hids0) as Hids.
    rewrite (inv_workers _ _ Hinv0) in Hids.
    case_decide as Hid.
    - apply (inv_each _ _ Hinv id Done).
      apply all_done_lookup; [done|]. by rewrite (inv_workers _ _ Hinv).
    - eapply history_outside; [exact Hids|lia]. }
  assert (Hperm : sent (run net s1 p0) ≡ₚ sent (run net s2 p0)).
  { apply same_histories.
    - intros id. by rewrite !Hfinal.
    - intros id. rewrite Hfinal by done.
      case_decide; [apply NoDup_seqZ|constructor]. }
  assert (Hchan : channel (run net s1 p0) ≡ₚ channel (run net s2 p0)).
  { destruct (run_tied net fl (config p0) Hblind Hclient0 s1 p0 Htied0)
      as (_ & _ & -> & _).
    destruct (run_tied net fl (config p0) Hblind Hclient0 s2 p0 Htied0)
      as (_ & _ & -> & _).
    by rewrite Hperm. }
  assert (Hfits : forall s, Z.of_nat (length (channel (run net s p0))) <= max_int64).
  { intros s.
    assert (Hsane : pool_sane fl (run net s p0))
      by (apply run_sane; eapply startup_sane; eauto).
    destruct Hsane as [_ Hcap Hlen _ _]. unfold max_int64 in *. lia. }
  destruct (drain_counts _ (Hfits s1)) as (Ht1 & Hn1 & Hb1 & Hs1).
  destruct (drain_counts _ (Hfits s2)) as (Ht2 & Hn2 & Hb2 & Hs2).
  destruct (drain_file (channel (run net s1 p0))) as (-> & -> & ->).
  destruct (drain_file (channel (run net s2 p0))) as (-> & -> & ->).
  split_and!.
  - unfold counters. rewrite Ht1, Hn1, Hb1, Hs1, Ht2, Hn2, Hb2, Hs2.
    by rewrite !(tagged_Permutation _ _ _ Hchan), Hchan.
  - unfold bodies. by rewrite Hchan.
  - unfold bodies. by rewrite Hchan.
  - unfold bodies. by rewrite Hchan.
Qed.

Lemma report_independent_of_schedule_witness :
  exists p0 t1 t2,
    (startup Samples.platform (Samples.flags 2 3) ["http://example.com/"]
     = inr p0
     /\ body_blind Fixtures.tagging (request (config p0))
     /\ main Samples.platform Fixtures.tagging (Samples.flags 2 3)
             ["http://example.com/"] (Samples.round_robin 2 7) = Reported t1
     /\ main Samples.platform Fixtures.tagging (Samples.flags 2 3)
             ["http://example.com/"] (replicate 7 1 ++ replicate 7 0)%nat
        = Reported t2)
    /\ Bad (file t1) = ["0/1"; "1/1"; "0/3"; "1/3"]
    /\ Bad (file t2) = ["1/1"; "1/3"; "0/1"; "0/3"]
    /\ counters t1 = counters t2.
Proof.
  eexists _, _, _.
  assert (Hblind : body_blind Fixtures.tagging
                     (mkRequest "GET" "http://example.com/" [] (NewReader "")))
    by (by intros id i cur).
  split; [split_and!; [reflexivity|exact Hblind|vm_compute; reflexivity..]|].
  split; [reflexivity|]. split; [reflexivity|].
  eapply (report_independent_of_schedule Samples.platform Fixtures.tagging
            (Samples.flags 2 3) ["http://example.com/"] _
            (Samples.round_robin 2 7) (replicate 7 1 ++ replicate 7 0)%nat).
  - simpl; lia.
  - simpl; lia.
  - unfold in_range, max_int64; simpl; lia.
  - reflexivity.
  - exact Hblind.
  - vm_compute; reflexivity.
  - vm_compute; reflexivity.
Defined.

(** ** Attempts while the pool is running *)

(** X13.  With the flags in range, at every point of every run: no
    attempt has been put on the channel twice, every attempt on it is
    numbered from 1 to [requests] and belongs to one of the [clients]
    goroutines, a goroutine at its send holds an attempt within its quota
    that is not on the channel yet, and no loop variable is beyond
    [requests + 1]. *)
Theorem attempts_within_quota P net fl args p0 sched :
  0 <= clients fl -> 0 <= requests fl -> in_range fl ->
  startup P fl args = inr p0 ->
  let p := run net sched p0 in
  NoDup (sent p)
  /\ Forall (fun e => (e.1 < Z.to_nat (clients fl))%nat
                      /\ 1 <= e.2 <= requests fl) (sent p)
  /\ (forall id i o, workers p !! id = Some (Sending i o) ->
        1 <= i <= requests fl /\ (id, i) ∉ sent p)
  /\ (forall id i, workers p !! id = Some (Looping i) ->
        1 <= i <= requests fl + 1).
Proof.
  intros Hc Hr Hrange Hstart p.
  assert (Hbelow : 1 <= clients fl -> requests fl < max_int64)
    by (intros ?; eapply startup_below; eauto).
  assert (Hinv0 : pool_inv fl p0) by (eapply startup_inv; eauto).
  assert (Hinv : pool_inv fl p) by (by apply run_inv).
  destruct (startup_tied P net fl args p0 Hstart) as [_ Hids0].
  pose proof (run_sent_ids net sched p0 Hids0) as Hids. fold p in Hids.
  rewrite (inv_workers _ _ Hinv0) in Hids.
  pose proof Hinv as [Hn _ _ _ _ Heach].
  assert (Hhist : forall id, exists k,
             k <= requests fl /\ history id (sent p) = seqZ 1 k).
  { intros id. destruct (workers p !! id) as [w|] eqn:Hw.
    - specialize (Heach id w Hw).
      destruct w as [i|i o|]; simpl in Heach;
        [exists (i - 1)|exists (i - 1)|exists (requests fl)];
        (split; [lia|tauto]).
    - exists 0. split; [done|].
      apply lookup_ge_None in Hw. rewrite Hn in Hw.
      rewrite seqZ_nil by done. by eapply history_outside. }
  split_and!.
  - apply NoDup_by_history. intros id.
    destruct (Hhist id) as (k & _ & ->). apply NoDup_seqZ.
  - apply Forall_forall. intros [id i] Hin. simpl.
    split; [by apply (proj1 (Forall_forall _ _) Hids (id, i))|].
    apply elem_of_history in Hin. destruct (Hhist id) as (k & Hk & Heq).
    rewrite Heq in Hin. apply elem_of_seqZ in Hin. lia.
  - intros id i o Hw. destruct (Heach id _ Hw) as [Hi Heq].
    split; [done|]. intros Hin. apply elem_of_history in Hin.
    rewrite Heq in Hin. apply elem_of_seqZ in Hin. lia.
  - intros id i Hw. by destruct (Heach id _ Hw).
Qed.

Lemma attempts_within_quota_witness :
  exists p0,
    (0 <= 2 /\ 0 <= 3 /\ in_range (Samples.flags 2 3)
     /\ startup Samples.platform (Samples.flags 2 3) ["example.com"] = inr p0)
    /\ NoDup (sent (run Samples.flaky [0; 0; 1; 0; 0; 1]%nat p0)).
Proof.
  eexists.
  assert (Hrange : in_range (Samples.flags 2 3))
    by (unfold in_range, max_int64; simpl; lia).
  split; [split_and!; [lia|lia|exact Hrange|reflexivity]|].
  apply (attempts_within_quota Samples.platform Samples.flaky
           (Samples.flags 2 3) ["example.com"] _ [0; 0; 1; 0; 0; 1]%nat);
    [simpl; lia|simpl; lia|exact Hrange|reflexivity].
Defined.

(** ** The output file *)

Lemma lower_byte_is c x :
  (x = "n"%char \/ x = "y"%char) ->
  lower_byte c = x <-> c = x \/ c = ascii_of_nat (nat_of_ascii x - 32).
Proof.
  intros [-> | ->];
    destruct c as [[] [] [] [] [] [] [] []]; vm_compute;
    split; intros H; try discriminate H; auto;
    destruct H as [H|H]; discriminate H.
Qed.

Lemma EqualFold_letter text x :
  (x = "n"%char \/ x = "y"%char) ->
  EqualFold text (String x "") = true
  <-> text = String x "" \/ text = String (ascii_of_nat (nat_of_ascii x - 32)) "".
Proof.
  intros Hx. unfold EqualFold.
  assert (Hlow : ToLower (String x "") = String x "")
    by (by destruct Hx as [-> | ->]).
  rewrite Hlow, String.eqb_eq.
  destruct text as [|c [|c' rest]]; simpl.
  - split; [done|]. by intros [|].
  - split.
    + intros [= Hc]. apply (lower_byte_is c x Hx) in Hc as [-> | ->]; auto.
    + intros [[= ->]|[= ->]]; f_equal; apply (lower_byte_is _ x Hx); auto.
  - split; [done|]. by intros [|].
Qed.

(** The answers that end the prompt are [n], [N], [y] and [Y]. *)
Lemma decisive_answers text :
  decisive text <-> text = "n" \/ text = "N" \/ text = "y" \/ text = "Y".
Proof.
  unfold decisive.
  rewrite (EqualFold_letter text "n"), (EqualFold_letter text "y") by auto.
  simpl. tauto.
Qed.

Lemma overwrite_prompt_cases stdin location body fs :
  match overwrite_prompt stdin location body fs with
  | Spins => Forall (fun t => ~ decisive t) stdin
  | Exits code =>
      code = 1
      /\ exists junk text rest,
           stdin = junk ++ text :: rest
           /\ Forall (fun t => ~ decisive t) junk
           /\ EqualFold text "n" = true
  | Returned err fs' =>
      exists junk text rest,
        stdin = junk ++ text :: rest
        /\ Forall (fun t => ~ decisive t) junk
        /\ EqualFold text "n" = false /\ EqualFold text "y" = true
        /\ WriteFile fs location body = (err, fs')
  end.
Proof.
  induction stdin as [|text stdin IH]; simpl; [constructor|].
  destruct (EqualFold text "n") eqn:Hn.
  { split; [done|]. by exists [], text, stdin. }
  destruct (EqualFold text "y") eqn:Hy.
  { destruct (WriteFile fs location body) as [err fs'] eqn:Hw.
    by exists [], text, stdin. }
  assert (Hjunk : ~ decisive text) by (unfold decisive; intros [|]; congruence).
  destruct (overwrite_prompt stdin location body fs) as [err fs'|code|].
  - destruct IH as (junk & t & rest & -> & Hj & H1 & H2 & H3).
    exists (text :: junk), t, rest. split_and!; try done. by constructor.
  - destruct IH as (-> & junk & t & rest & -> & Hj & H1).
    split; [done|]. exists (text :: junk), t, rest.
    split_and!; try done. by constructor.
  - by constructor.
Qed.

Lemma overwrite_prompt_skips junk stdin location body fs :
  Forall (fun t => ~ decisive t) junk ->
  overwrite_prompt (junk ++ stdin) location body fs
  = overwrite_prompt stdin location body fs.
Proof.
  induction 1 as [|text junk Ht _ IH]; simpl; [done|].
  unfold decisive in Ht.
  destruct (EqualFold text "n"); [tauto|].
  destruct (EqualFold text "y"); [tauto|done].
Qed.

(** X14.  For a file that exists, [writeOutputFile] asks until it reads
    one of [n], [N], [y], [Y], skipping every other line: on [n] or [N] it
    ends the process with status 1; on [y] or [Y] it writes the file and
    returns what the write returned; and when standard input ends before
    such an answer it asks for ever. *)
Theorem writeOutputFile_asks junk text rest location body fs :
  Stat fs location = true ->
  Forall (fun t => ~ decisive t) junk ->
  writeOutputFile junk location body fs = Spins
  /\ (text = "n" \/ text = "N" ->
      writeOutputFile (junk ++ text :: rest) location body fs = Exits 1)
  /\ (text = "y" \/ text = "Y" ->
      writeOutputFile (junk ++ text :: rest) location body fs
      = Returned (WriteFile fs location body).1 (WriteFile fs location body).2)
  /\ (forall t, decisive t <-> t = "n" \/ t = "N" \/ t = "y" \/ t = "Y").
Proof.
  intros Hexists Hjunk. unfold writeOutputFile. rewrite Hexists.
  split_and!.
  - rewrite <- (app_nil_r junk), overwrite_prompt_skips by done. done.
  - intros Hn. rewrite overwrite_prompt_skips by done.
    by destruct Hn as [-> | ->].
  - intros Hy. rewrite overwrite_prompt_skips by done.
    destruct Hy as [-> | ->]; simpl; by destruct (WriteFile fs location body).
  - apply decisive_answers.
Qed.

Lemma writeOutputFile_asks_witness :
  (Stat Fixtures.disk "report.json" = true
   /\ Forall (fun t => ~ decisive t) [""; "yes"; "no"; "maybe"])
  /\ writeOutputFile [""; "yes"; "no"; "maybe"; "N"; "y"] "report.json" "new"
                     Fixtures.disk
     = Exits 1
  /\ writeOutputFile [""; "yes"; "no"; "maybe"] "report.json" "new"
                     Fixtures.disk
     = Spins.
Proof.
  assert (Hjunk : Forall (fun t => ~ decisive t) [""; "yes"; "no"; "maybe"]).
  { repeat constructor; rewrite decisive_answers; intros [|[|[|]]]; discriminate. }
  split; [by split|].
  destruct (writeOutputFile_asks [""; "yes"; "no"; "maybe"] "N" ["y"]
              "report.json" "new" Fixtures.disk eq_refl Hjunk)
    as (Hspin & Hno & _).
  split; [apply Hno; by right|exact Hspin].
Defined.

(** X15.  [writeOutputFile] returns only out of its one call of
    [ioutil.WriteFile], made on the location and the body it was given,
    and hands back what that call returned.  A file that is not there is
    written without a question, whatever is on standard input; a file
    that is there is written only after an answer [y] or [Y] that no [n]
    or [N] came before. *)
Theorem writeOutputFile_writes_on_consent stdin location body fs :
  (Stat fs location = false ->
   writeOutputFile stdin location body fs
   = Returned (WriteFile fs location body).1 (WriteFile fs location body).2)
  /\ (forall err fs',
        writeOutputFile stdin location body fs = Returned err fs' ->
        WriteFile fs location body = (err, fs')
        /\ (Stat fs location = true ->
            exists junk text rest,
              stdin = junk ++ text :: rest
              /\ Forall (fun t => ~ decisive t) junk
              /\ (text = "y" \/ text = "Y"))).
Proof.
  unfold writeOutputFile. split.
  - intros ->. by destruct (WriteFile fs location body).
  - intros err fs' Hret.
    pose proof (overwrite_prompt_cases stdin location body fs) as Hcases.
    destruct (Stat fs location).
    + rewrite Hret in Hcases.
      destruct Hcases as (junk & text & rest & -> & Hjunk & Hn & Hy & Hw).
      split; [done|]. intros _. exists junk, text, rest. split_and!; try done.
      apply (EqualFold_letter text "y") in Hy; [done|auto].
    + split; [|done]. destruct (WriteFile fs location body).
      by injection Hret as -> ->.
Qed.

Lemma writeOutputFile_writes_on_consent_witness :
  exists fs',
    (Stat Fixtures.disk "new.json" = false
     /\ writeOutputFile ["what?"; "Y"] "report.json" "new" Fixtures.disk
        = Returned None fs')
    /\ writeOutputFile ["n"] "new.json" "new" Fixtures.disk
       = Returned None
           (mkFS {[ "new.json" := "new"; "report.json" := "old" ]}
                 (refused Fixtures.disk) (breaks Fixtures.disk))
    /\ WriteFile Fixtures.disk "report.json" "new" = (None, fs').
Proof.
  eexists. split; [split; reflexivity|].
  match goal with
  | |- _ /\ WriteFile _ _ _ = (_, ?fs') =>
      destruct (writeOutputFile_writes_on_consent ["n"] "new.json" "new"
                  Fixtures.disk) as [Hnew _];
      destruct (writeOutputFile_writes_on_consent ["what?"; "Y"] "report.json"
                  "new" Fixtures.disk) as [_ Hold];
      destruct (Hold None fs' eq_refl) as [Hwrite _]
  end.
  split; [by rewrite (Hnew eq_refl)|exact Hwrite].
Defined.

(** X16.  Without an output file configured, [main] prints the summary
    and touches no file, whatever is on standard input.  With one that is
    not there yet, the file is written and the summary printed, also when
    the write fails.  With one that is there, the first answer among [n],
    [N], [y], [Y] decides: [n] or [N] ends the process with status 1 and
    no summary is printed; [y] or [Y] writes the file and the summary is
    printed, also when the write fails; and when standard input ends
    before such an answer the summary is never printed. *)
Theorem report_outcomes marshal fl stdin fs t :
  let location := outputFile fl in
  let written := WriteFile fs location (marshal (file t)) in
  (location = "" -> report marshal fl stdin fs t = Summary t None fs)
  /\ (location <> "" -> Stat fs location = false ->
      report marshal fl stdin fs t = Summary t written.1 written.2)
  /\ (location <> "" -> Stat fs location = true ->
      forall junk text rest,
        stdin = junk ++ text :: rest ->
        Forall (fun t => ~ decisive t) junk ->
        (text = "n" \/ text = "N" ->
         report marshal fl stdin fs t = ExitsUnreported 1)
        /\ (text = "y" \/ text = "Y" ->
            report marshal fl stdin fs t = Summary t written.1 written.2))
  /\ (location <> "" -> Stat fs location = true ->
      Forall (fun t => ~ decisive t) stdin ->
      report marshal fl stdin fs t = SpinsUnreported).
Proof.
  cbv zeta. unfold report, writeOutputFile.
  destruct (String.eqb_spec (outputFile fl) "") as [->|Hset]; simpl;
    [by split_and!|].
  split_and!; try done.
  - intros _ ->. by destruct (WriteFile _ _ _).
  - intros _ -> junk text rest -> Hjunk.
    rewrite overwrite_prompt_skips by done. split.
    + by intros [-> | ->].
    + intros [-> | ->]; simpl; by destruct (WriteFile _ _ _).
  - intros _ -> Hjunk.
    rewrite <- (app_nil_r stdin), overwrite_prompt_skips by done. done.
Qed.

Lemma report_outcomes_witness :
  let t := drain [mkOutput "succ" "ok"] in
  ("/full/x" <> "" /\ Stat Fixtures.disk "/full/x" = false
   /\ Stat Fixtures.disk "report.json" = true
   /\ Forall (fun t => ~ decisive t) ["no"])
  /\ report Fixtures.marshal (Fixtures.to_file "") ["n"] Fixtures.disk t
     = Summary t None Fixtures.disk
  /\ report Fixtures.marshal (Fixtures.to_file "/full/x") [] Fixtures.disk t
     = Summary t (Some "no space left on device")
               (mkFS {[ "/full/x" := "||"; "report.json" := "old" ]}
                     (refused Fixtures.disk) (breaks Fixtures.disk))
  /\ report Fixtures.marshal (Fixtures.to_file "report.json") ["no"; "N"; "y"]
            Fixtures.disk t
     = ExitsUnreported 1
  /\ report Fixtures.marshal (Fixtures.to_file "report.json") ["no"]
            Fixtures.disk t
     = SpinsUnreported.
Proof.
  intros t.
  assert (Hjunk : Forall (fun t => ~ decisive t) ["no"]).
  { repeat constructor. rewrite decisive_answers. intros [|[|[|]]]; discriminate. }
  split; [by split_and!|].
  destruct (report_outcomes Fixtures.marshal (Fixtures.to_file "") ["n"]
              Fixtures.disk t) as (Hnone & _).
  destruct (report_outcomes Fixtures.marshal (Fixtures.to_file "/full/x") []
              Fixtures.disk t) as (_ & Hfresh & _).
  destruct (report_outcomes Fixtures.marshal (Fixtures.to_file "report.json")
              ["no"; "N"; "y"] Fixtures.disk t) as (_ & _ & Hasked & _).
  destruct (report_outcomes Fixtures.marshal (Fixtures.to_file "report.json")
              ["no"] Fixtures.disk t) as (_ & _ & _ & Hspin).
  split_and!.
  - by apply Hnone.
  - by rewrite Hfresh.
  - destruct (Hasked ltac:(done) eq_refl ["no"] "N" ["y"] eq_refl Hjunk)
      as [Hno _].
    apply Hno. by right.
  - by apply Hspin.
Defined.

(** ** [flexItOut] *)

Lemma flexItOut_from_spec fuel i hunkLevel b :
  0 <= i -> hunkLevel <= max_int64 ->
  (Z.to_nat (hunkLevel - i) <= fuel)%nat ->
  flexItOut_from fuel i hunkLevel b
  = Some (b +:+ repeat_string (Z.to_nat (hunkLevel - i)) (GunShow +:+ " ")).
Proof.
  revert i b. induction fuel as [|fuel IH]; intros i b Hi Hmax Hfuel.
  - simpl. destruct (Z.ltb_spec i hunkLevel); [lia|].
    replace (Z.to_nat (hunkLevel - i)) with 0%nat by lia.
    simpl. by rewrite append_nil_r.
  - simpl. destruct (Z.ltb_spec i hunkLevel).
    + rewrite wrap64_id
        by (unfold is_int64, min_int64, max_int64 in *; lia).
      rewrite IH by lia.
      replace (Z.to_nat (hunkLevel - i))
        with (S (Z.to_nat (hunkLevel - (i + 1)))) by lia.
      simpl. by rewrite !append_assoc.
    + replace (Z.to_nat (hunkLevel - i)) with 0%nat by lia.
      simpl. by rewrite append_nil_r.
Qed.

Lemma repeat_string_length n unit :
  String.length (repeat_string n unit) = (n * String.length unit)%nat.
Proof.
  induction n as [|n IH]; [done|]. simpl. by rewrite append_length, IH.
Qed.

(** X17.  Given turns enough, [flexItOut] writes [hunkLevel] times the
    four bytes of the flexed arm and a space, [5 * hunkLevel] bytes in
    all, and nothing for a level of zero or less. *)
Theorem flexItOut_bytes fuel hunkLevel :
  hunkLevel <= max_int64 ->
  (Z.to_nat hunkLevel <= fuel)%nat ->
  exists b,
    flexItOut fuel hunkLevel = Some b
    /\ b = repeat_string (Z.to_nat hunkLevel) (GunShow +:+ " ")
    /\ Z.of_nat (String.length b) = 5 * Z.max 0 hunkLevel.
Proof.
  intros Hmax Hfuel. eexists. split; [|split; [reflexivity|]].
  - unfold flexItOut. rewrite flexItOut_from_spec; [|lia|done|].
    + by rewrite Z.sub_0_r.
    + by rewrite Z.sub_0_r.
  - rewrite repeat_string_length.
    change (String.length (GunShow +:+ " ")) with 5%nat. lia.
Qed.

Lemma flexItOut_bytes_witness :
  (3 <= max_int64 /\ (Z.to_nat 3 <= 3)%nat /\ (Z.to_nat (-4) <= 0)%nat)
  /\ (exists b, flexItOut 3 3 = Some b /\ String.length b = 15%nat)
  /\ flexItOut 0 (-4) = Some "".
Proof.
  split; [split_and!; [by vm_compute|simpl; lia|simpl; lia]|].
  split.
  - destruct (flexItOut_bytes 3 3 ltac:(by vm_compute) ltac:(simpl; lia))
      as (b & Hb & -> & _).
    eexists. split; [exact Hb|reflexivity].
  - destruct (flexItOut_bytes 0 (-4) ltac:(by vm_compute) ltac:(simpl; lia))
      as (b & Hb & -> & _).
    exact Hb.
Defined.

(** ** The three categories of the current generation *)

(** X18.  [crunchRequest] labels an attempt [net] exactly when [Do]
    failed, with the error text as payload; [succ] exactly when [Do]
    gave a response whose body was read to its end and whose status is
    from 200 to 299, with the body as payload; and [bad] in the two
    remaining cases: a body read that failed (payload the read error) or
    any other status (payload the body). *)
Theorem crunchRequest_classifies conf net :
  let out := (crunchRequest conf net).1 in
  match (Do (client conf) (request conf) net).1 with
  | inl err => out = mkOutput "net" err
  | inr resp =>
      match body_err (resp_Body resp) with
      | Some err => out = mkOutput "bad" err
      | None =>
          out = mkOutput (if decide (200 <= StatusCode resp <= 299)
                          then "succ" else "bad")
                         (body_bytes (resp_Body resp))
      end
  end.
Proof.
  cbv zeta.
  destruct (Do (client conf) (request conf) net) as [[err|resp] req'] eqn:HDo;
    simpl.
  - unfold crunchRequest. by rewrite HDo.
  - destruct (body_err (resp_Body resp)) as [err|] eqn:Hread.
    + unfold crunchRequest. rewrite HDo. unfold ReadAll. by rewrite Hread.
    + rewrite (crunchRequest_status conf net resp); by rewrite ?HDo.
Qed.
